(** * A/B test statistics: a shallow embedding of [ab_test_visualizations.py]

    The script computes a two-proportion Z-test from four integer literals,
    prints a console summary and draws two figures.  This development embeds
    the numeric part of the script and the order of its observable effects,
    and proves the properties the specification states about them.

    Numeric model.
    - A Python [int] is a [Z].
    - A Python [float] is a real number: rounding and underflow are not
      modelled, every arithmetic operation is the exact one.  Python's [/]
      raises [ZeroDivisionError] on a zero divisor, and on two ints it raises
      [OverflowError] when the quotient is too large for a float; both are
      modelled.  A float divided by an int converts the int first, which
      raises [OverflowError] for an int beyond float range; that conversion
      is not modelled, and the theorems about the whole run on arbitrary
      integers bound the counts instead.
    - A numpy [float64] is a real number or one of the three special values
      the script can reach, [inf], [-inf] and [nan].  numpy does not raise on
      a zero divisor or on the square root of a negative number: it returns
      a special value, which is modelled.  Signed zeros are not modelled.
    - [scipy.stats.norm.cdf] is the standard normal distribution function,
      defined here as [1/2] plus the Riemann integral of the density from
      [0] to [x]. *)

From Stdlib Require Import Reals Lra Lia Arith Factorial ZArith QArith Qreals.
From Stdlib Require Import String List Sorted.
Import ListNotations.
Open Scope R_scope.

(** ** Python exceptions and the error monad *)

Inductive exn : Type :=
| ZeroDivisionError
| OverflowError
| ValueError
| IndexError.

Inductive result (A : Type) : Type :=
| Ok (a : A)
| Raise (e : exn).

Arguments Ok {A} a.
Arguments Raise {A} e.

Definition bind {A B : Type} (m : result A) (k : A -> result B) : result B :=
  match m with
  | Ok a => k a
  | Raise e => Raise e
  end.

Notation "x <- m ;; k" := (bind m (fun x => k))
  (at level 61, m at next level, right associativity).

(** ** Python arithmetic *)

(** The least magnitude that rounds to a float64 beyond the largest one:
    [2^1024 - 2^970], half way between the largest float64 and [2^1024]. *)
Definition float_overflow_bound : Z := (2 ^ 1024 - 2 ^ 970)%Z.

(** Whether the quotient [a / b] of two ints, which Python rounds correctly
    to the nearest float64, is out of range. *)
Definition quotient_overflows (a b : Z) : bool :=
  (float_overflow_bound * Z.abs b <=? Z.abs a)%Z.

(** [a / b] on two Python ints: true division, raising [ZeroDivisionError]
    on [b = 0] and [OverflowError] when the result is too large for a
    float. *)
Definition py_int_truediv (a b : Z) : result R :=
  if Z.eqb b 0 then Raise ZeroDivisionError
  else if quotient_overflows a b then Raise OverflowError
  else Ok (IZR a / IZR b).

(** [x / b] with a Python float [x] and a Python int [b], for an int within
    float range. *)
Definition py_float_int_truediv (x : R) (b : Z) : result R :=
  if Z.eqb b 0 then Raise ZeroDivisionError else Ok (x / IZR b).

(** [x / y] on two Python floats. *)
Definition py_float_truediv (x y : R) : result R :=
  if Req_dec_T y 0 then Raise ZeroDivisionError else Ok (x / y).

(** ** numpy float64 arithmetic *)

Inductive npfloat : Type :=
| Fin (r : R)
| PInf
| NInf
| NaN.

Definition is_nan (x : npfloat) : bool :=
  match x with NaN => true | _ => false end.

Definition inf_of_sign (positive : bool) : npfloat :=
  if positive then PInf else NInf.

Definition Rpositive (r : R) : bool := if Rlt_dec 0 r then true else false.

Definition np_neg (x : npfloat) : npfloat :=
  match x with
  | Fin r => Fin (- r)
  | PInf => NInf
  | NInf => PInf
  | NaN => NaN
  end.

Definition np_add (x y : npfloat) : npfloat :=
  match x, y with
  | NaN, _ | _, NaN => NaN
  | Fin a, Fin b => Fin (a + b)
  | PInf, NInf | NInf, PInf => NaN
  | PInf, _ | _, PInf => PInf
  | NInf, _ | _, NInf => NInf
  end.

Definition np_sub (x y : npfloat) : npfloat := np_add x (np_neg y).

(** The product of an infinity with a finite value: [nan] at zero. *)
Definition np_scale_inf (positive : bool) (r : R) : npfloat :=
  if Req_dec_T r 0 then NaN
  else inf_of_sign (Bool.eqb positive (Rpositive r)).

Definition np_mul (x y : npfloat) : npfloat :=
  match x, y with
  | NaN, _ | _, NaN => NaN
  | Fin a, Fin b => Fin (a * b)
  | PInf, Fin r | Fin r, PInf => np_scale_inf true r
  | NInf, Fin r | Fin r, NInf => np_scale_inf false r
  | PInf, PInf | NInf, NInf => PInf
  | PInf, NInf | NInf, PInf => NaN
  end.

(** Division: a finite value over zero is an infinity of its sign, [0/0] is
    [nan]; nothing is raised. *)
Definition np_div (x y : npfloat) : npfloat :=
  match x, y with
  | NaN, _ | _, NaN => NaN
  | Fin a, Fin b =>
      if Req_dec_T b 0 then
        if Req_dec_T a 0 then NaN else inf_of_sign (Rpositive a)
      else Fin (a / b)
  | Fin _, PInf | Fin _, NInf => Fin 0
  | PInf, Fin b => inf_of_sign (if Req_dec_T b 0 then true else Rpositive b)
  | NInf, Fin b => inf_of_sign (negb (if Req_dec_T b 0 then true else Rpositive b))
  | _, _ => NaN
  end.

Definition np_abs (x : npfloat) : npfloat :=
  match x with
  | Fin r => Fin (Rabs r)
  | PInf | NInf => PInf
  | NaN => NaN
  end.

(** [np.sqrt]: [nan] below zero. *)
Definition np_sqrt (x : npfloat) : npfloat :=
  match x with
  | Fin r => if Rlt_dec r 0 then NaN else Fin (sqrt r)
  | PInf => PInf
  | NInf | NaN => NaN
  end.

(** [x < y]: false as soon as one side is [nan]. *)
Definition np_ltb (x y : npfloat) : bool :=
  match x, y with
  | NaN, _ | _, NaN => false
  | Fin a, Fin b => if Rlt_dec a b then true else false
  | NInf, NInf | PInf, _ | Fin _, NInf => false
  | NInf, _ | Fin _, PInf => true
  end.

(** [x >= y]: false as soon as one side is [nan]. *)
Definition np_geb (x y : npfloat) : bool :=
  match x, y with
  | NaN, _ | _, NaN => false
  | Fin a, Fin b => if Rle_dec b a then true else false
  | PInf, _ | _, NInf => true
  | _, _ => false
  end.

(** ** The standard normal distribution ([scipy.stats.norm]) *)

Definition norm_pdf (x : R) : R := exp (- (x * x) / 2) / sqrt (2 * PI).

Definition norm_pdf_integrable (a b : R) : Riemann_integrable norm_pdf a b.
Proof.
  assert (C : continuity norm_pdf).
  { apply derivable_continuous. unfold norm_pdf. intros x. reg. }
  destruct (Rle_dec a b) as [H | H].
  - apply continuity_implies_RiemannInt; [exact H |].
    intros x _. apply C.
  - apply RiemannInt_P1, continuity_implies_RiemannInt; [lra |].
    intros x _. apply C.
Qed.

(** The distribution function on the reals. *)
Definition Phi (x : R) : R := 1 / 2 + RiemannInt (norm_pdf_integrable 0 x).

(** [stats.norm.cdf] on a float64. *)
Definition norm_cdf (x : npfloat) : npfloat :=
  match x with
  | Fin r => Fin (Phi r)
  | PInf => Fin 1
  | NInf => Fin 0
  | NaN => NaN
  end.

(** ** The script's inputs and results *)

(** One arm of the experiment: lines 16-19 hold two of them as four literals. *)
Record Variant : Type := mkVariant {
  visitor_count : Z;
  conversion_count : Z
}.

(** The values lines 22-35 bind, under the names the script gives them, and
    the test [p_value < 0.05] of line 47. *)
Record TestResult : Type := mkTestResult {
  p_control : R;
  p_variant : R;
  p_pooled : R;
  se : npfloat;
  z_stat : npfloat;
  p_value : npfloat;
  significant : bool
}.

Definition alpha : R := 5 / 100.
Definition critical_z : R := 196 / 100.

(** Lines 22-35 and the verdict of line 47, as a function of the two arms. *)
Definition compute_test_result (control variant : Variant) : result TestResult :=
  pc <- py_int_truediv (conversion_count control) (visitor_count control) ;;
  pv <- py_int_truediv (conversion_count variant) (visitor_count variant) ;;
  pp <- py_int_truediv (conversion_count control + conversion_count variant)
                       (visitor_count control + visitor_count variant) ;;
  ic <- py_int_truediv 1 (visitor_count control) ;;
  iv <- py_int_truediv 1 (visitor_count variant) ;;
  let se_ := np_sqrt (Fin (pp * (1 - pp) * (ic + iv))) in
  let z := np_div (Fin (pv - pc)) se_ in
  let p := np_mul (Fin 2) (np_sub (Fin 1) (norm_cdf (np_abs z))) in
  Ok {| p_control := pc; p_variant := pv; p_pooled := pp; se := se_;
        z_stat := z; p_value := p; significant := np_ltb p (Fin alpha) |}.

(** ** Confidence intervals (lines 144-155) *)

(** [ci_control] and [ci_variant]: the half-width of the interval. *)
Definition ci (rate : R) (visitors : Z) : result npfloat :=
  q <- py_float_int_truediv (rate * (1 - rate)) visitors ;;
  Ok (np_mul (Fin critical_z) (np_sqrt (Fin q))).

(** What [plt.errorbar] draws at height [y] with [yerr]: the bar from
    [y - yerr] to [y + yerr]. *)
Definition errorbar (y yerr : npfloat) : npfloat * npfloat :=
  (np_sub y yerr, np_add y yerr).

(** The interval around a rate, in rate units. *)
Definition confidence_interval (rate : R) (visitors : Z) : result (npfloat * npfloat) :=
  e <- ci rate visitors ;;
  Ok (errorbar (Fin rate) e).

(** The bar of line 154, in percent: rate and half-width are both scaled by
    100 before they are drawn. *)
Definition ci_errorbar (rate : R) (visitors : Z) : result (npfloat * npfloat) :=
  e <- ci rate visitors ;;
  Ok (errorbar (Fin (rate * 100)) (np_mul e (Fin 100))).

(** ** The power curve (lines 218-238) *)

(** [np.linspace start stop num], end point included. *)
Definition linspace (start stop : R) (num : nat) : list R :=
  map (fun i => start + INR i * ((stop - start) / INR (num - 1))) (seq 0 num).

Definition sample_sizes : list R := linspace 1000 50000 100.

(** The body of the loop of lines 221-228 at one sample size. *)
Definition power (diff_observed pooled n : R) : npfloat :=
  let se_n := np_sqrt (np_mul (Fin (pooled * (1 - pooled))) (np_div (Fin 2) (Fin n))) in
  let ncp := np_div (Fin diff_observed) se_n in
  np_sub (Fin 1) (norm_cdf (np_sub (Fin critical_z) ncp)).

Definition powers (diff_observed pooled : R) : list npfloat :=
  map (power diff_observed pooled) sample_sizes.

(** The scan of [np.argmin] from position [i] on: [mp] is the least value
    seen and [min_ind] its position; a [nan] ends the scan at once. *)
Fixpoint argmin_loop (l : list npfloat) (i : nat) (mp : npfloat) (min_ind : nat) : nat :=
  match l with
  | [] => min_ind
  | x :: rest =>
      if np_geb x mp then argmin_loop rest (S i) mp min_ind
      else if is_nan x then i
      else argmin_loop rest (S i) x i
  end.

Definition argmin (l : list npfloat) : result nat :=
  match l with
  | [] => Raise ValueError
  | x :: rest => if is_nan x then Ok 0%nat else Ok (argmin_loop rest 1 x 0)
  end.

(** Indexing a sequence. *)
Definition index {A : Type} (l : list A) (i : nat) : result A :=
  match nth_error l i with
  | Some a => Ok a
  | None => Raise IndexError
  end.

Definition target_power : R := 8 / 10.

(** Line 237. *)
Definition power_80_idx (diff_observed pooled : R) : result nat :=
  argmin (map (fun w => np_abs (np_sub w (Fin target_power))) (powers diff_observed pooled)).

(** Line 238. *)
Definition sample_for_80 (diff_observed pooled : R) : result R :=
  i <- power_80_idx diff_observed pooled ;;
  index sample_sizes i.

(** ** The run of the script: console lines, charts and files, in order *)

Inductive console_line : Type :=
| Rule                                      (* [print("=" * 60)] *)
| Text (s : string)
| Field (label : string) (value : npfloat)  (* a formatted number *)
| Verdict (yes : bool).                     (* line 47 *)

Inductive event : Type :=
| Print (l : console_line)
| Plot (figure axes : nat)                  (* one set of axes is drawn *)
| Annotate (x : R)                          (* line 240 *)
| Savefig (file : string)
| Show.

(** A statement of the script: it extends the output written so far and
    either yields a value or raises; what was written before an exception
    stays written. *)
Definition script (A : Type) : Type := list event -> list event * result A.

Definition ret {A : Type} (a : A) : script A := fun out => (out, Ok a).

Definition lift {A : Type} (r : result A) : script A := fun out => (out, r).

Definition emit (e : event) : script unit := fun out => (out ++ [e], Ok tt).

Definition andthen {A B : Type} (m : script A) (k : A -> script B) : script B :=
  fun out =>
    match m out with
    | (out', Ok a) => k a out'
    | (out', Raise e) => (out', Raise e)
    end.

Notation "x <~ m ;; k" := (andthen m (fun x => k))
  (at level 61, m at next level, right associativity).
Notation "m ;;; k" := (andthen m (fun _ => k))
  (at level 61, right associativity).

Definition print (l : console_line) : script unit := emit (Print l).

(** Lines 37-48. *)
Definition console_summary (r : TestResult) : script unit :=
  print Rule ;;;
  print (Text "A/B TEST RESULTS") ;;;
  print Rule ;;;
  print (Field "Control Rate:" (Fin (p_control r))) ;;;
  print (Field "Variant Rate:" (Fin (p_variant r))) ;;;
  print (Field "Absolute Diff:" (Fin (p_variant r - p_control r))) ;;;
  lift_ <~ lift (py_float_truediv (p_variant r - p_control r) (p_control r)) ;;
  print (Field "Relative Lift:" (Fin (lift_ * 100))) ;;;
  print (Field "Standard Error:" (se r)) ;;;
  print (Field "Z-statistic:" (z_stat r)) ;;;
  print (Field "P-value:" (p_value r)) ;;;
  print (Verdict (np_ltb (p_value r) (Fin alpha))) ;;;
  print Rule.

(** Lines 51-258: the six plots of the first figure.  Only the Python
    arithmetic that can raise and the values the claims are about are kept;
    the calls into the plotting library are events. *)
Definition figure_breakdown (control variant : Variant) (r : TestResult) : script unit :=
  _ <~ lift (py_float_int_truediv (p_control r * (1 - p_control r)) (visitor_count control)) ;;
  _ <~ lift (py_float_int_truediv (p_variant r * (1 - p_variant r)) (visitor_count variant)) ;;
  emit (Plot 1 1) ;;;
  emit (Plot 1 2) ;;;
  emit (Plot 1 3) ;;;
  _ <~ lift (ci (p_control r) (visitor_count control)) ;;
  _ <~ lift (ci (p_variant r) (visitor_count variant)) ;;
  emit (Plot 1 4) ;;;
  emit (Plot 1 5) ;;;
  n80 <~ lift (sample_for_80 (p_variant r - p_control r) (p_pooled r)) ;;
  emit (Annotate n80) ;;;
  emit (Plot 1 6) ;;;
  emit (Savefig "ab_test_statistical_breakdown.png") ;;;
  print (Text "Visualization saved as 'ab_test_statistical_breakdown.png'") ;;;
  emit Show.

(** Lines 263-364: the four panels of the second figure; the decision text
    of line 350 divides by the control rate once more. *)
Definition figure_explained (r : TestResult) : script unit :=
  emit (Plot 2 1) ;;;
  emit (Plot 2 2) ;;;
  emit (Plot 2 3) ;;;
  _ <~ lift (py_float_truediv (p_variant r - p_control r) (p_control r)) ;;
  emit (Plot 2 4) ;;;
  emit (Savefig "ab_test_explained.png") ;;;
  print (Text "Explanation saved as 'ab_test_explained.png'") ;;;
  emit Show.

(** The whole script on the two arms, from an empty output. *)
Definition run (control variant : Variant) : list event * result unit :=
  (r <~ lift (compute_test_result control variant) ;;
   console_summary r ;;;
   figure_breakdown control variant r ;;;
   figure_explained r ;;;
   print Rule ;;;
   print (Text "VISUALIZATIONS COMPLETE!") ;;;
   print Rule ;;;
   print (Text "Created 2 comprehensive visualizations:") ;;;
   print (Text "  1. ab_test_statistical_breakdown.png - 6 detailed plots") ;;;
   print (Text "  2. ab_test_explained.png - Simple explanations") ;;;
   print Rule) [].

Definition is_chart (e : event) : bool :=
  match e with Print _ => false | _ => true end.

(** The arms the specification calls valid. *)
Definition valid (a : Variant) : Prop :=
  (0 < visitor_count a)%Z /\ (0 <= conversion_count a <= visitor_count a)%Z.

(** ** Polynomials that enclose the normal distribution function

    Partial sums of the series of [exp (- u)] and of its integral along
    [u = x * x / 2]; they are the means by which numeric bounds on [Phi] are
    computed. *)

Fixpoint exp_neg_sum (n : nat) (u : R) : R :=
  match n with
  | O => 1
  | S k => exp_neg_sum k u + (-1) ^ n * u ^ n / INR (fact n)
  end.

Fixpoint gauss_sum (n : nat) (x : R) : R :=
  match n with
  | O => x
  | S k => gauss_sum k x
           + (-1) ^ n * x ^ (2 * n + 1) / (INR (fact n) * 2 ^ n * INR (2 * n + 1))
  end.

(** The integral of [exp (- t * t / 2)] from [0] to [x]. *)
Definition gauss_integral (x : R) : R := sqrt (2 * PI) * (Phi x - 1 / 2).

(** The same sums on rationals, where they are evaluated; each partial sum
    is kept in lowest terms. *)
Fixpoint factZ (n : nat) : Z :=
  match n with
  | O => 1%Z
  | S k => (Z.of_nat n * factZ k)%Z
  end.

Definition gauss_den (n : nat) : Z :=
  (factZ n * 2 ^ Z.of_nat n * (2 * Z.of_nat n + 1))%Z.

Fixpoint powQ (x : Q) (n : nat) : Q :=
  match n with
  | O => 1%Q
  | S k => (x * powQ x k)%Q
  end.

Fixpoint gauss_sumQ (n : nat) (x : Q) : Q :=
  match n with
  | O => x
  | S k => Qred (gauss_sumQ k x
                 + (((-1) ^ Z.of_nat n) # Z.to_pos (gauss_den n)) * powQ x (2 * n + 1))%Q
  end.

(** ** The formulas of the specification

    The closed forms the specification gives, on the reals; the theorems
    compare what the script computes with them. *)

Definition rate (a : Variant) : R :=
  IZR (conversion_count a) / IZR (visitor_count a).

Definition pooled (c v : Variant) : R :=
  (IZR (conversion_count c) + IZR (conversion_count v))
  / (IZR (visitor_count c) + IZR (visitor_count v)).

Definition variance_term (c v : Variant) : R :=
  pooled c v * (1 - pooled c v) * (1 / IZR (visitor_count c) + 1 / IZR (visitor_count v)).

Definition standard_error (c v : Variant) : R := sqrt (variance_term c v).

(** The power at one sample size. *)
Definition power_formula (effect_size pooled_rate n : R) : R :=
  1 - Phi (critical_z - effect_size / sqrt (pooled_rate * (1 - pooled_rate) * (2 / n))).

(** The distance of that power from the target of line 237. *)
Definition gap (d p n : R) : R := Rabs (power_formula d p n - target_power).

(** The half-width of a confidence interval. *)
Definition margin (rate_ : R) (n : Z) : R :=
  critical_z * sqrt (rate_ * (1 - rate_) / IZR n).

(** ** Inputs of the examples *)

(** The literals of lines 16-19. *)
Definition reference_control : Variant := mkVariant 10000 500.
Definition reference_variant : Variant := mkVariant 10000 580.

(** The values lines 29-35 reach on them. *)
Definition reference_variance : R := 102168 / 10000000000.
Definition reference_se : R := sqrt reference_variance.
Definition reference_z : R := 8 / 1000 / reference_se.
Definition reference_p : R := 2 * (1 - Phi (Rabs reference_z)).

(** Variant arms with more conversions than the reference, and with as many
    as the reference control. *)
Definition variant_600 : Variant := mkVariant 10000 600.
Definition equal_variant : Variant := mkVariant 10000 500.

(** The result on the reference arms, and the result on two arms that both
    convert as the reference control does. *)
Definition reference_outcome : TestResult :=
  mkTestResult (5 / 100) (58 / 1000) (54 / 1000) (Fin reference_se)
               (Fin reference_z) (Fin reference_p) true.

Definition no_effect_outcome : TestResult :=
  mkTestResult (5 / 100) (5 / 100) (5 / 100) (Fin (sqrt (95 / 10000000)))
               (Fin 0) (Fin 1) false.

(** Arms without a conversion, an arm without a visitor, an arm with more
    conversions than visitors, and two small valid arms. *)
Definition empty_control : Variant := mkVariant 100 0.
Definition empty_variant : Variant := mkVariant 100 0.
Definition no_visitors : Variant := mkVariant 0 0.
Definition overfull_control : Variant := mkVariant 10 11.
Definition small_variant : Variant := mkVariant 10 5.
Definition two_visitors : Variant := mkVariant 2 1.

(** The six lines that are on the console when line 43 is reached. *)
Definition summary_head (r : TestResult) : list event :=
  [ Print Rule; Print (Text "A/B TEST RESULTS"); Print Rule;
    Print (Field "Control Rate:" (Fin (p_control r)));
    Print (Field "Variant Rate:" (Fin (p_variant r)));
    Print (Field "Absolute Diff:" (Fin (p_variant r - p_control r))) ].

(** ** More of the script: lift, impact, shaded regions, the whole output *)



(** Boolean-mask indexing of a float64 array by a float64 threshold:
    [x[x < t]] and [x[x > t]].  The order of the kept points is that of the
    array; a [nan] threshold keeps nothing. *)
Definition mask_lt (x : list R) (t : npfloat) : list R :=
  filter (fun y => np_ltb (Fin y) t) x.

Definition mask_gt (x : list R) (t : npfloat) : list R :=
  filter (fun y => np_ltb t (Fin y)) x.

(** Lines 82 and 267: the grid of z scores of both figures. *)
Definition x_z : list R := linspace (-4) 4 1000.
Definition x_simple : list R := linspace (-4) 4 1000.

(** Lines 90-91: the rejection region. *)
Definition x_left : list R := mask_lt x_z (Fin (- critical_z)).
Definition x_right : list R := mask_gt x_z (Fin critical_z).

(** Lines 116-117: the two tails shaded as the p-value. *)
Definition x_p_left (z : npfloat) : list R := mask_lt x_z (np_neg (np_abs z)).
Definition x_p_right (z : npfloat) : list R := mask_gt x_z (np_abs z).

(** Line 286: the shaded points of the second figure,
    [x_simple[np.abs(x_simple) > abs(z_stat)]]. *)
Definition x_shade (z : npfloat) : list R :=
  filter (fun y => np_ltb (np_abs z) (np_abs (Fin y))) x_simple.

(** An arm with every count multiplied by [k]. *)
Definition scale_arm (k : Z) (a : Variant) : Variant :=
  mkVariant (k * visitor_count a) (k * conversion_count a).

(** Everything a run that completes writes, in order: the twelve lines of
    lines 37-48 with the relative lift [lift_], the six plots of the first
    figure with the annotated sample size [n80], its file, the four panels
    of the second figure, its file, and the closing lines. *)
Definition complete_output (r : TestResult) (lift_ n80 : R) : list event :=
  summary_head r
  ++ [ Print (Field "Relative Lift:" (Fin (lift_ * 100)));
       Print (Field "Standard Error:" (se r));
       Print (Field "Z-statistic:" (z_stat r));
       Print (Field "P-value:" (p_value r));
       Print (Verdict (significant r));
       Print Rule;
       Plot 1 1; Plot 1 2; Plot 1 3; Plot 1 4; Plot 1 5;
       Annotate n80; Plot 1 6;
       Savefig "ab_test_statistical_breakdown.png";
       Print (Text "Visualization saved as 'ab_test_statistical_breakdown.png'");
       Show;
       Plot 2 1; Plot 2 2; Plot 2 3; Plot 2 4;
       Savefig "ab_test_explained.png";
       Print (Text "Explanation saved as 'ab_test_explained.png'");
       Show;
       Print Rule;
       Print (Text "VISUALIZATIONS COMPLETE!");
       Print Rule;
       Print (Text "Created 2 comprehensive visualizations:");
       Print (Text "  1. ab_test_statistical_breakdown.png - 6 detailed plots");
       Print (Text "  2. ab_test_explained.png - Simple explanations");
       Print Rule ].

(** A division of two ints that returns: the divisor is not 0 and the
    quotient is within float range. *)
Definition division_defined (a b : Z) : Prop :=
  (b <> 0 /\ Z.abs a < float_overflow_bound * Z.abs b)%Z.

(** The three quotients of counts of lines 22, 23 and 26 return. *)
Definition divisions_defined (c v : Variant) : Prop :=
  division_defined (conversion_count c) (visitor_count c)
  /\ division_defined (conversion_count v) (visitor_count v)
  /\ division_defined (conversion_count c + conversion_count v)
                      (visitor_count c + visitor_count v).

(** The conversion counts and their sum are within float range. *)
Definition conversions_in_float_range (c v : Variant) : Prop :=
  (Z.abs (conversion_count c) < float_overflow_bound
   /\ Z.abs (conversion_count v) < float_overflow_bound
   /\ Z.abs (conversion_count c + conversion_count v) < float_overflow_bound)%Z.

(** An arm whose two counts are below [2^500] in absolute value: far inside
    the range where a Python float neither overflows nor underflows. *)
Definition moderate_bound : Z := (2 ^ 500)%Z.

Definition moderate (a : Variant) : Prop :=
  (Z.abs (visitor_count a) < moderate_bound
   /\ Z.abs (conversion_count a) < moderate_bound)%Z.

(** One visitor and [10^400] conversions: a quotient beyond float range. *)
Definition overflowing_control : Variant := mkVariant 1 (10 ^ 400).

(** Two arms whose z statistic lies just below 1.96. *)
Definition band_control : Variant := mkVariant 5000 187.
Definition band_variant : Variant := mkVariant 5000 226.

(** The integers on which no Python division of the script has a zero
    divisor. *)
Definition run_precondition (c v : Variant) : Prop :=
  (visitor_count c <> 0 /\ visitor_count v <> 0
   /\ visitor_count c + visitor_count v <> 0 /\ conversion_count c <> 0)%Z.

(** The files a sequence of events has saved. *)
Definition saved_files (out : list event) : list string :=
  flat_map (fun e => match e with Savefig f => [f] | _ => [] end) out.

(** * Facts about the normal distribution function *)

Lemma sqrt_2PI_pos : 0 < sqrt (2 * PI).
Proof. apply sqrt_lt_R0. generalize PI_RGT_0. lra. Qed.

Lemma norm_pdf_continuity : continuity norm_pdf.
Proof. apply derivable_continuous. unfold norm_pdf. intros x. reg. Qed.

Lemma Phi_0 : Phi 0 = 1 / 2.
Proof. unfold Phi. rewrite RiemannInt_P9. lra. Qed.

Lemma Phi_derivable_pt_lim (x : R) : derivable_pt_lim Phi x (norm_pdf x).
Proof.
  assert (Hab : x - 1 <= x + 1) by lra.
  assert (C0 : forall y, x - 1 <= y <= x + 1 -> continuity_pt norm_pdf y)
    by (intros y _; apply norm_pdf_continuity).
  pose (F := primitive Hab (FTC_P1 Hab C0)).
  pose (C := 1 / 2 + RiemannInt (norm_pdf_integrable 0 (x - 1))).
  apply (derivable_pt_lim_locally_ext (fun y => C + F y) Phi x (x - 1) (x + 1)).
  - lra.
  - intros z Hz. unfold Phi, C, F, primitive.
    destruct (Rle_dec (x - 1) z) as [H1 | H1]; [| lra].
    destruct (Rle_dec z (x + 1)) as [H2 | H2]; [| lra].
    rewrite Rplus_assoc. f_equal. apply RiemannInt_P26.
  - replace (norm_pdf x) with (0 + norm_pdf x) by ring.
    apply (derivable_pt_lim_plus (fun _ => C) F).
    + apply derivable_pt_lim_const.
    + apply RiemannInt_P28. lra.
Qed.

Lemma Phi_derivable : derivable Phi.
Proof. intros x. exists (norm_pdf x). apply Phi_derivable_pt_lim. Qed.

Lemma norm_pdf_pos (x : R) : 0 < norm_pdf x.
Proof.
  unfold norm_pdf. apply Rdiv_lt_0_compat; [apply exp_pos | apply sqrt_2PI_pos].
Qed.

Lemma Phi_increasing (x y : R) : x <= y -> Phi x <= Phi y.
Proof.
  apply (nonneg_derivative_1 Phi Phi_derivable).
  intros z. rewrite (derive_pt_eq_0 _ _ _ _ (Phi_derivable_pt_lim z)).
  left. apply norm_pdf_pos.
Qed.

Lemma nonneg_from_zero (f f' : R -> R) :
  (forall x, derivable_pt_lim f x (f' x)) ->
  (forall x, 0 <= x -> 0 <= f' x) ->
  f 0 = 0 -> forall x, 0 <= x -> 0 <= f x.
Proof.
  intros Hd Hpos H0 x [Hx | <-]; [| lra].
  destruct (MVT_cor2 f f' 0 x Hx) as (c & Hc & Hin).
  - intros; apply Hd.
  - assert (0 <= f' c) by (apply Hpos; lra).
    rewrite H0 in Hc. nra.
Qed.

Lemma exp_neg_sum_deriv (n : nat) (u : R) :
  derivable_pt_lim (exp_neg_sum (S n)) u (- exp_neg_sum n u).
Proof.
  induction n as [| n IH].
  - apply (derivable_pt_lim_locally_ext (fun u => 1 - u) _ u (u - 1) (u + 1));
      [lra | intros; simpl; field |].
    simpl. replace (Ropp 1) with (0 - 1) by ring.
    apply (derivable_pt_lim_minus (fun _ => 1) id).
    + apply derivable_pt_lim_const.
    + apply derivable_pt_lim_id.
  - change (exp_neg_sum (S (S n))) with
      (fun u => exp_neg_sum (S n) u + (-1) ^ S (S n) * u ^ S (S n) / INR (fact (S (S n)))).
    change (exp_neg_sum (S n) u) with
      (exp_neg_sum n u + (-1) ^ S n * u ^ S n / INR (fact (S n))).
    replace (- (exp_neg_sum n u + (-1) ^ S n * u ^ S n / INR (fact (S n))))
      with (- exp_neg_sum n u
            + ((-1) ^ S (S n) / INR (fact (S (S n)))) * (INR (S (S n)) * u ^ pred (S (S n)))).
    + apply (derivable_pt_lim_plus (exp_neg_sum (S n))); [exact IH |].
      apply (derivable_pt_lim_locally_ext
               (fun u => ((-1) ^ S (S n) / INR (fact (S (S n)))) * u ^ S (S n)) _ u (u - 1) (u + 1));
        [lra | intros; unfold Rdiv; ring |].
      apply derivable_pt_lim_scal, derivable_pt_lim_pow.
    + rewrite (fact_simpl (S n)), mult_INR.
      assert (INR (fact (S n)) <> 0) by apply INR_fact_neq_0.
      assert (INR (S (S n)) <> 0) by (apply not_0_INR; lia).
      change (pred (S (S n))) with (S n).
      change ((-1) ^ S (S n)) with (-1 * (-1) ^ S n).
      field. split; assumption.
Qed.

Lemma exp_neg_sum_0 (n : nat) : exp_neg_sum n 0 = 1.
Proof.
  induction n as [| n IH]; [reflexivity |].
  change (exp_neg_sum (S n) 0) with
    (exp_neg_sum n 0 + (-1) ^ S n * 0 ^ S n / INR (fact (S n))).
  rewrite IH, pow_ne_zero by lia. unfold Rdiv. ring.
Qed.

Lemma exp_neg_deriv (u : R) : derivable_pt_lim (fun u => exp (- u)) u (- exp (- u)).
Proof.
  replace (- exp (- u)) with (exp (- u) * -1) by ring.
  apply (derivable_pt_lim_comp (fun u => - u) exp).
  - replace (-1) with (Ropp 1) by ring.
    apply (derivable_pt_lim_opp id), derivable_pt_lim_id.
  - apply derivable_pt_lim_exp.
Qed.

Lemma exp_neg_sum_alternates (n : nat) :
  forall u, 0 <= u -> 0 <= (-1) ^ n * (exp_neg_sum n u - exp (- u)).
Proof.
  induction n as [| n IH]; intros u Hu.
  - simpl. assert (exp (- u) <= 1).
    { rewrite <- exp_0. destruct Hu as [Hu | <-].
      - left. apply exp_increasing. lra.
      - rewrite Ropp_0. lra. }
    lra.
  - apply (nonneg_from_zero
             (fun u => (-1) ^ S n * (exp_neg_sum (S n) u - exp (- u)))
             (fun u => (-1) ^ n * (exp_neg_sum n u - exp (- u)))); [| exact IH | | exact Hu].
    + intros x.
      replace ((-1) ^ n * (exp_neg_sum n x - exp (- x)))
        with ((-1) ^ S n * (- exp_neg_sum n x - - exp (- x))) by (simpl; ring).
      apply derivable_pt_lim_scal.
      apply (derivable_pt_lim_minus (exp_neg_sum (S n)) (fun u => exp (- u))).
      * apply exp_neg_sum_deriv.
      * apply exp_neg_deriv.
    + rewrite exp_neg_sum_0, Ropp_0, exp_0. ring.
Qed.

Lemma half_sq_pow (x : R) (n : nat) : (x * x / 2) ^ n = x ^ (2 * n) / 2 ^ n.
Proof.
  induction n as [| n IH].
  - simpl. field.
  - replace (2 * S n)%nat with (S (S (2 * n))) by lia.
    simpl pow at 1. rewrite IH. simpl. field. apply pow_nonzero. lra.
Qed.

Lemma gauss_sum_deriv (n : nat) (x : R) :
  derivable_pt_lim (gauss_sum n) x (exp_neg_sum n (x * x / 2)).
Proof.
  induction n as [| n IH].
  - simpl. apply derivable_pt_lim_id.
  - change (gauss_sum (S n)) with
      (fun x => gauss_sum n x
           + (-1) ^ S n * x ^ (2 * S n + 1) / (INR (fact (S n)) * 2 ^ S n * INR (2 * S n + 1))).
    change (exp_neg_sum (S n) (x * x / 2)) with
      (exp_neg_sum n (x * x / 2) + (-1) ^ S n * (x * x / 2) ^ S n / INR (fact (S n))).
    assert (Hf : INR (fact (S n)) <> 0) by apply INR_fact_neq_0.
    assert (Hk : INR (2 * S n + 1) <> 0) by (apply not_0_INR; lia).
    assert (Hp : 2 ^ S n <> 0) by (apply pow_nonzero; lra).
    replace ((-1) ^ S n * (x * x / 2) ^ S n / INR (fact (S n)))
      with (((-1) ^ S n / (INR (fact (S n)) * 2 ^ S n * INR (2 * S n + 1)))
            * (INR (2 * S n + 1) * x ^ pred (2 * S n + 1))).
    + apply (derivable_pt_lim_plus (gauss_sum n)); [exact IH |].
      apply (derivable_pt_lim_locally_ext
               (fun x => ((-1) ^ S n / (INR (fact (S n)) * 2 ^ S n * INR (2 * S n + 1)))
                         * x ^ (2 * S n + 1)) _ x (x - 1) (x + 1));
        [lra | intros; unfold Rdiv; ring |].
      apply derivable_pt_lim_scal, derivable_pt_lim_pow.
    + rewrite half_sq_pow.
      replace (pred (2 * S n + 1)) with (2 * S n)%nat by lia.
      field. repeat split; assumption.
Qed.

Lemma gauss_integral_deriv (x : R) :
  derivable_pt_lim gauss_integral x (exp (- (x * x / 2))).
Proof.
  replace (exp (- (x * x / 2))) with (sqrt (2 * PI) * (norm_pdf x - 0)).
  - apply derivable_pt_lim_scal.
    apply (derivable_pt_lim_minus Phi (fun _ => 1 / 2)).
    + apply Phi_derivable_pt_lim.
    + apply derivable_pt_lim_const.
  - unfold norm_pdf. replace (- (x * x) / 2) with (- (x * x / 2)) by field.
    field. apply Rgt_not_eq, sqrt_2PI_pos.
Qed.

Lemma gauss_sum_0 (n : nat) : gauss_sum n 0 = 0.
Proof.
  induction n as [| n IH]; [reflexivity |].
  change (gauss_sum (S n) 0) with
    (gauss_sum n 0 + (-1) ^ S n * 0 ^ (2 * S n + 1) / (INR (fact (S n)) * 2 ^ S n * INR (2 * S n + 1))).
  rewrite IH, pow_ne_zero by lia. unfold Rdiv. ring.
Qed.

Lemma gauss_sum_alternates (n : nat) (x : R) :
  0 <= x -> 0 <= (-1) ^ n * (gauss_sum n x - gauss_integral x).
Proof.
  apply (nonneg_from_zero
           (fun x => (-1) ^ n * (gauss_sum n x - gauss_integral x))
           (fun x => (-1) ^ n * (exp_neg_sum n (x * x / 2) - exp (- (x * x / 2))))).
  - intros y. apply derivable_pt_lim_scal.
    apply (derivable_pt_lim_minus (gauss_sum n) gauss_integral).
    + apply gauss_sum_deriv.
    + apply gauss_integral_deriv.
  - intros y Hy. apply exp_neg_sum_alternates. nra.
  - rewrite gauss_sum_0. unfold gauss_integral. rewrite Phi_0. ring.
Qed.

Lemma pow_m1_even (n : nat) : (-1) ^ (2 * n) = 1.
Proof. rewrite pow_mult. replace ((-1) ^ 2) with 1 by (simpl; ring). apply pow1. Qed.

Lemma pow_m1_odd (n : nat) : (-1) ^ (2 * n + 1) = -1.
Proof. rewrite pow_add, pow_m1_even. simpl. ring. Qed.

Lemma gauss_integral_upper (n : nat) (x : R) :
  0 <= x -> gauss_integral x <= gauss_sum (2 * n) x.
Proof.
  intros Hx. generalize (gauss_sum_alternates (2 * n) x Hx).
  rewrite pow_m1_even. lra.
Qed.

Lemma gauss_integral_lower (n : nat) (x : R) :
  0 <= x -> gauss_sum (2 * n + 1) x <= gauss_integral x.
Proof.
  intros Hx. generalize (gauss_sum_alternates (2 * n + 1) x Hx).
  rewrite pow_m1_odd. lra.
Qed.

Lemma factZ_INR (n : nat) : IZR (factZ n) = INR (fact n).
Proof.
  induction n as [| n IH]; [reflexivity |].
  change (factZ (S n)) with (Z.of_nat (S n) * factZ n)%Z.
  rewrite fact_simpl, mult_INR, mult_IZR, IH, <- INR_IZR_INZ. reflexivity.
Qed.

Lemma gauss_den_INR (n : nat) :
  IZR (gauss_den n) = INR (fact n) * 2 ^ n * INR (2 * n + 1).
Proof.
  unfold gauss_den. rewrite !mult_IZR, factZ_INR.
  rewrite <- pow_IZR, plus_INR, mult_INR, plus_IZR, mult_IZR, <- INR_IZR_INZ.
  simpl. reflexivity.
Qed.

Lemma gauss_den_pos (n : nat) : (0 < gauss_den n)%Z.
Proof.
  apply lt_IZR. rewrite gauss_den_INR.
  apply Rmult_lt_0_compat; [apply Rmult_lt_0_compat |].
  - apply INR_fact_lt_0.
  - apply pow_lt. lra.
  - apply lt_0_INR. lia.
Qed.

Lemma powQ_Q2R (x : Q) (n : nat) : Q2R (powQ x n) = Q2R x ^ n.
Proof.
  induction n as [| n IH]; simpl.
  - unfold Q2R. simpl. field.
  - rewrite Q2R_mult, IH. reflexivity.
Qed.

Lemma gauss_sumQ_Q2R (n : nat) (x : Q) : Q2R (gauss_sumQ n x) = gauss_sum n (Q2R x).
Proof.
  induction n as [| n IH]; [reflexivity |].
  change (gauss_sumQ (S n) x) with
    (Qred (gauss_sumQ n x
           + (((-1) ^ Z.of_nat (S n)) # Z.to_pos (gauss_den (S n))) * powQ x (2 * S n + 1)))%Q.
  rewrite (Qeq_eqR _ _ (Qred_correct _)).
  change (gauss_sum (S n) (Q2R x)) with
    (gauss_sum n (Q2R x)
     + (-1) ^ S n * Q2R x ^ (2 * S n + 1) / (INR (fact (S n)) * 2 ^ S n * INR (2 * S n + 1))).
  rewrite Q2R_plus, Q2R_mult, IH, powQ_Q2R. f_equal.
  unfold Q2R at 1. cbn [Qnum Qden].
  rewrite Z2Pos.id by apply gauss_den_pos.
  rewrite gauss_den_INR, <- pow_IZR. unfold Rdiv. ring.
Qed.

Lemma PI_lower : 3141592 / 1000000 < PI.
Proof.
  destruct (PI_2_3_7_ineq 2) as [H _].
  unfold tg_alt, PI_2_3_7_tg, Ratan_seq in H. simpl in H. lra.
Qed.

Lemma PI_upper : PI < 3141593 / 1000000.
Proof.
  destruct (PI_2_3_7_ineq 3) as [_ H].
  unfold tg_alt, PI_2_3_7_tg, Ratan_seq in H. simpl in H. lra.
Qed.

Lemma sqrt_2PI_lower : 2506628 / 1000000 < sqrt (2 * PI).
Proof.
  generalize PI_lower; intros H.
  rewrite <- (sqrt_square (2506628 / 1000000)) by lra.
  apply sqrt_lt_1_alt. lra.
Qed.

Lemma sqrt_2PI_upper : sqrt (2 * PI) < 2506629 / 1000000.
Proof.
  generalize PI_upper, PI_lower; intros H H'.
  rewrite <- (sqrt_square (2506629 / 1000000)) by lra.
  apply sqrt_lt_1_alt. lra.
Qed.

Lemma gauss_integral_nonneg (x : R) : 0 <= x -> 0 <= gauss_integral x.
Proof.
  intros Hx. unfold gauss_integral.
  pose proof (Phi_increasing 0 x Hx) as H. rewrite Phi_0 in H.
  apply Rmult_le_pos; [left; apply sqrt_2PI_pos | lra].
Qed.

Lemma Phi_as_gauss_integral (x : R) : Phi x = 1 / 2 + gauss_integral x / sqrt (2 * PI).
Proof.
  unfold gauss_integral. field. apply Rgt_not_eq, sqrt_2PI_pos.
Qed.

Lemma Q2R_ratio (a : Z) (b : positive) : Q2R (a # b) = IZR a / IZR (Zpos b).
Proof. reflexivity. Qed.

(** A lower bound on [Phi] at a rational, from a sum of odd order. *)
Lemma Phi_lower_bound (n : nat) (q lo : Q) :
  (0 <= q)%Q ->
  (lo <= (1 # 2) + gauss_sumQ (2 * n + 1) q * (1000000 # 2506629))%Q ->
  Q2R lo <= Phi (Q2R q).
Proof.
  intros Hq Hlo. apply Qle_Rle in Hq, Hlo.
  rewrite Q2R_plus, Q2R_mult, gauss_sumQ_Q2R, !Q2R_ratio in Hlo.
  rewrite Q2R_ratio in Hq. replace (IZR 0 / IZR 1) with 0 in Hq by field.
  pose proof (gauss_integral_lower n (Q2R q) Hq) as Hl.
  pose proof (gauss_integral_nonneg (Q2R q) Hq) as H0.
  pose proof sqrt_2PI_lower as Hsl. pose proof sqrt_2PI_upper as Hsu.
  rewrite Phi_as_gauss_integral.
  set (s := sqrt (2 * PI)) in *. set (I := gauss_integral (Q2R q)) in *.
  set (L := gauss_sum (2 * n + 1) (Q2R q)) in *.
  apply Rle_trans with (1 := Hlo). apply Rplus_le_compat_l.
  assert (Hs : 0 < / s) by (apply Rinv_0_lt_compat; lra).
  assert (Hc : 1000000 / 2506629 < / s).
  { replace (1000000 / 2506629) with (/ (2506629 / 1000000)) by field.
    apply Rinv_lt_contravar; nra. }
  unfold Rdiv at 2. destruct (Rle_dec 0 L) as [HL | HL].
  - apply Rle_trans with (L * / s); [apply Rmult_le_compat_l; lra |].
    apply Rmult_le_compat_r; lra.
  - apply Rle_trans with 0; [| apply Rmult_le_pos; lra].
    assert (0 <= - L * (1000000 / 2506629)) by (apply Rmult_le_pos; lra).
    lra.
Qed.

(** An upper bound on [Phi] at a rational, from a sum of even order. *)
Lemma Phi_upper_bound (m : nat) (q hi : Q) :
  (0 <= q)%Q ->
  ((1 # 2) + gauss_sumQ (2 * m) q * (1000000 # 2506628) <= hi)%Q ->
  Phi (Q2R q) <= Q2R hi.
Proof.
  intros Hq Hhi. apply Qle_Rle in Hq, Hhi.
  rewrite Q2R_plus, Q2R_mult, gauss_sumQ_Q2R, !Q2R_ratio in Hhi.
  rewrite Q2R_ratio in Hq. replace (IZR 0 / IZR 1) with 0 in Hq by field.
  pose proof (gauss_integral_upper m (Q2R q) Hq) as Hu.
  pose proof (gauss_integral_nonneg (Q2R q) Hq) as H0.
  pose proof sqrt_2PI_lower as Hsl. pose proof sqrt_2PI_upper as Hsu.
  rewrite Phi_as_gauss_integral.
  set (s := sqrt (2 * PI)) in *. set (I := gauss_integral (Q2R q)) in *.
  set (U := gauss_sum (2 * m) (Q2R q)) in *.
  apply Rle_trans with (2 := Hhi). apply Rplus_le_compat_l.
  assert (Hs : 0 < / s) by (apply Rinv_0_lt_compat; lra).
  assert (Hc : / s < 1000000 / 2506628).
  { replace (1000000 / 2506628) with (/ (2506628 / 1000000)) by field.
    apply Rinv_lt_contravar; nra. }
  unfold Rdiv at 1.
  apply Rle_trans with (U * / s); [apply Rmult_le_compat_r; lra |].
  apply Rmult_le_compat_l; lra.
Qed.

Lemma Phi_196 : 97500 / 100000 <= Phi (196 / 100) <= 97501 / 100000.
Proof.
  split.
  - rewrite <- (Q2R_ratio 196 100), <- (Q2R_ratio 97500 100000).
    apply (Phi_lower_bound 7); apply Qle_bool_imp_le; vm_compute; reflexivity.
  - rewrite <- (Q2R_ratio 196 100), <- (Q2R_ratio 97501 100000).
    apply (Phi_upper_bound 7); apply Qle_bool_imp_le; vm_compute; reflexivity.
Qed.


(** * The Z-test of lines 22-35 *)

Lemma valid_reals (a : Variant) :
  valid a ->
  0 < IZR (visitor_count a)
  /\ 0 <= IZR (conversion_count a) <= IZR (visitor_count a).
Proof.
  intros [Hv [H0 H1]]. repeat split.
  - now apply IZR_lt in Hv.
  - now apply IZR_le in H0.
  - now apply IZR_le in H1.
Qed.

Lemma div_unit_interval (a b : R) : 0 < b -> 0 <= a <= b -> 0 <= a / b <= 1.
Proof.
  intros Hb [H0 H1]. split.
  - apply Rmult_le_pos; [exact H0 | left; now apply Rinv_0_lt_compat].
  - apply Rmult_le_reg_r with b; [exact Hb |].
    unfold Rdiv. rewrite Rmult_assoc, Rinv_l by lra. lra.
Qed.

Lemma rate_range (a : Variant) : valid a -> 0 <= rate a <= 1.
Proof.
  intros H. destruct (valid_reals a H) as [Hv Hc].
  apply div_unit_interval; assumption.
Qed.

(** ** float64 operations on numbers *)

Lemma np_sqrt_nonneg (x : R) : 0 <= x -> np_sqrt (Fin x) = Fin (sqrt x).
Proof.
  intros H. unfold np_sqrt. destruct (Rlt_dec x 0) as [Hn | _]; [lra | reflexivity].
Qed.

Lemma np_div_fin (a b : R) : b <> 0 -> np_div (Fin a) (Fin b) = Fin (a / b).
Proof.
  intros H. unfold np_div. destruct (Req_dec_T b 0) as [E | _]; [contradiction | reflexivity].
Qed.

Lemma np_ltb_fin (a b : R) : np_ltb (Fin a) (Fin b) = true <-> a < b.
Proof.
  unfold np_ltb. destruct (Rlt_dec a b); split; intros; try assumption;
    try reflexivity; try discriminate; contradiction.
Qed.

Lemma p_value_of_z (z : npfloat) :
  np_mul (Fin 2) (np_sub (Fin 1) (norm_cdf (np_abs z))) =
  match z with
  | Fin x => Fin (2 * (1 - Phi (Rabs x)))
  | PInf | NInf => Fin (2 * (1 - 1))
  | NaN => NaN
  end.
Proof.
  destruct z; cbn; try reflexivity;
    unfold Rminus; reflexivity.
Qed.

(** ** Division of two ints *)

Lemma float_overflow_bound_large : (2 ^ 501 <= float_overflow_bound)%Z.
Proof. apply Z.leb_le. vm_compute. reflexivity. Qed.

Lemma moderate_bound_pos : (0 < moderate_bound)%Z.
Proof. apply Z.ltb_lt. vm_compute. reflexivity. Qed.

Lemma moderate_bound_double : (2 * moderate_bound = 2 ^ 501)%Z.
Proof. apply Z.eqb_eq. vm_compute. reflexivity. Qed.

Lemma float_overflow_bound_moderate : (2 * moderate_bound <= float_overflow_bound)%Z.
Proof. rewrite moderate_bound_double. exact float_overflow_bound_large. Qed.

Lemma float_overflow_bound_pos : (2 <= float_overflow_bound)%Z.
Proof.
  pose proof float_overflow_bound_moderate. pose proof moderate_bound_pos. lia.
Qed.

Lemma quotient_overflows_false (a b : Z) :
  quotient_overflows a b = false <-> (Z.abs a < float_overflow_bound * Z.abs b)%Z.
Proof. unfold quotient_overflows. rewrite Z.leb_gt. reflexivity. Qed.

Lemma quotient_overflows_true (a b : Z) :
  quotient_overflows a b = true <-> (float_overflow_bound * Z.abs b <= Z.abs a)%Z.
Proof. unfold quotient_overflows. rewrite Z.leb_le. reflexivity. Qed.

Lemma py_int_truediv_ok (a b : Z) :
  division_defined a b -> py_int_truediv a b = Ok (IZR a / IZR b).
Proof.
  intros [Hb Ha]. unfold py_int_truediv.
  apply Z.eqb_neq in Hb. rewrite Hb.
  apply quotient_overflows_false in Ha. rewrite Ha. reflexivity.
Qed.

Lemma py_int_truediv_zero (a : Z) : py_int_truediv a 0 = Raise ZeroDivisionError.
Proof. reflexivity. Qed.

Lemma py_int_truediv_overflow (a b : Z) :
  b <> 0%Z -> (float_overflow_bound * Z.abs b <= Z.abs a)%Z ->
  py_int_truediv a b = Raise OverflowError.
Proof.
  intros Hb Ha. unfold py_int_truediv.
  apply Z.eqb_neq in Hb. rewrite Hb.
  apply quotient_overflows_true in Ha. rewrite Ha. reflexivity.
Qed.

(** The three outcomes of a division of two ints. *)
Lemma py_int_truediv_cases (a b : Z) :
  (b = 0%Z /\ py_int_truediv a b = Raise ZeroDivisionError)
  \/ (b <> 0%Z /\ (float_overflow_bound * Z.abs b <= Z.abs a)%Z
      /\ py_int_truediv a b = Raise OverflowError)
  \/ (division_defined a b /\ py_int_truediv a b = Ok (IZR a / IZR b)).
Proof.
  destruct (Z.eq_dec b 0) as [E | N].
  - left. subst b. split; reflexivity.
  - right. destruct (Z_le_gt_dec (float_overflow_bound * Z.abs b) (Z.abs a)) as [L | G].
    + left. split; [exact N |]. split; [exact L |].
      apply py_int_truediv_overflow; assumption.
    + right. assert (D : division_defined a b) by (split; [exact N | lia]).
      split; [exact D | apply py_int_truediv_ok, D].
Qed.

(** A dividend within float range never overflows a quotient by an int. *)
Lemma division_defined_in_range (a b : Z) :
  b <> 0%Z -> (Z.abs a < float_overflow_bound)%Z -> division_defined a b.
Proof.
  intros Hb Ha. split; [exact Hb |].
  pose proof float_overflow_bound_pos as HT.
  assert (float_overflow_bound * 1 <= float_overflow_bound * Z.abs b)%Z
    by (apply Z.mul_le_mono_nonneg_l; lia).
  lia.
Qed.

Lemma division_defined_le (a b : Z) :
  b <> 0%Z -> (Z.abs a <= Z.abs b)%Z -> division_defined a b.
Proof.
  intros Hb Ha. split; [exact Hb |].
  pose proof float_overflow_bound_pos as HT.
  assert (2 * Z.abs b <= float_overflow_bound * Z.abs b)%Z
    by (apply Z.mul_le_mono_nonneg_r; lia).
  lia.
Qed.

Lemma division_defined_one (b : Z) : b <> 0%Z -> division_defined 1 b.
Proof.
  intros Hb. apply division_defined_in_range; [exact Hb |].
  pose proof float_overflow_bound_pos. change (Z.abs 1) with 1%Z. lia.
Qed.

Lemma division_defined_nonzero (a b : Z) : division_defined a b -> b <> 0%Z.
Proof. intros [H _]. exact H. Qed.

Lemma divisions_defined_nonzero (c v : Variant) :
  divisions_defined c v ->
  visitor_count c <> 0%Z /\ visitor_count v <> 0%Z
  /\ (visitor_count c + visitor_count v)%Z <> 0%Z.
Proof. intros ([? _] & [? _] & [? _]). repeat split; assumption. Qed.

(** Conversions within float range: the divisions return exactly when no
    divisor is 0. *)
Lemma divisions_defined_in_range (c v : Variant) :
  conversions_in_float_range c v ->
  visitor_count c <> 0%Z -> visitor_count v <> 0%Z ->
  (visitor_count c + visitor_count v)%Z <> 0%Z ->
  divisions_defined c v.
Proof.
  intros (R1 & R2 & R3) N1 N2 N3.
  repeat split; try assumption;
    apply division_defined_in_range; assumption.
Qed.

(** Moderate arms have their conversions within float range. *)
Lemma moderate_in_float_range (c v : Variant) :
  moderate c -> moderate v -> conversions_in_float_range c v.
Proof.
  intros [_ Mc] [_ Mv]. pose proof float_overflow_bound_moderate.
  unfold conversions_in_float_range. lia.
Qed.

(** What [compute_test_result] returns whenever no division raises. *)
Lemma compute_test_result_unfold (c v : Variant) :
  divisions_defined c v ->
  let s := np_sqrt (Fin (variance_term c v)) in
  let z := np_div (Fin (rate v - rate c)) s in
  let p := np_mul (Fin 2) (np_sub (Fin 1) (norm_cdf (np_abs z))) in
  compute_test_result c v =
  Ok {| p_control := rate c; p_variant := rate v; p_pooled := pooled c v;
        se := s; z_stat := z; p_value := p; significant := np_ltb p (Fin alpha) |}.
Proof.
  intros (Dc & Dv & Ds). unfold compute_test_result.
  rewrite (py_int_truediv_ok _ _ Dc), (py_int_truediv_ok _ _ Dv),
    (py_int_truediv_ok _ _ Ds).
  rewrite (py_int_truediv_ok _ _ (division_defined_one _ (division_defined_nonzero _ _ Dc))),
    (py_int_truediv_ok _ _ (division_defined_one _ (division_defined_nonzero _ _ Dv))).
  cbn [bind].
  unfold variance_term, pooled, rate. rewrite !plus_IZR. reflexivity.
Qed.

(** ** A valid pair of arms *)

Section ValidArms.

Variables c v : Variant.
Hypothesis Hc : valid c.
Hypothesis Hv : valid v.

Lemma pooled_range : 0 <= pooled c v <= 1.
Proof.
  destruct (valid_reals c Hc) as [? [? ?]], (valid_reals v Hv) as [? [? ?]].
  apply div_unit_interval; lra.
Qed.

Lemma inverse_sum_pos : 0 < 1 / IZR (visitor_count c) + 1 / IZR (visitor_count v).
Proof.
  destruct (valid_reals c Hc) as [H1 _], (valid_reals v Hv) as [H2 _].
  apply Rplus_lt_0_compat; apply Rdiv_lt_0_compat; lra.
Qed.

Lemma variance_term_nonneg : 0 <= variance_term c v.
Proof.
  unfold variance_term. pose proof pooled_range. pose proof inverse_sum_pos.
  apply Rmult_le_pos; [apply Rmult_le_pos |]; lra.
Qed.

Lemma variance_term_pos : 0 < pooled c v < 1 -> 0 < variance_term c v.
Proof.
  intros Hp. unfold variance_term. pose proof inverse_sum_pos.
  apply Rmult_lt_0_compat; [apply Rmult_lt_0_compat |]; lra.
Qed.

Lemma standard_error_pos : 0 < pooled c v < 1 -> 0 < standard_error c v.
Proof.
  intros Hp. apply sqrt_lt_R0, variance_term_pos, Hp.
Qed.

Lemma valid_nonzero :
  visitor_count c <> 0%Z /\ visitor_count v <> 0%Z
  /\ (visitor_count c + visitor_count v)%Z <> 0%Z.
Proof. unfold valid in Hc, Hv. lia. Qed.

(** On valid arms every rate is at most 1, far from overflow. *)
Lemma valid_defined : divisions_defined c v.
Proof.
  unfold valid in Hc, Hv.
  repeat split; try lia; apply division_defined_le; lia.
Qed.

(** On valid arms nothing raises: the standard error is a number, and the
    z statistic is the float64 quotient by it. *)
Lemma compute_test_result_valid :
  let z := np_div (Fin (rate v - rate c)) (Fin (standard_error c v)) in
  let p := np_mul (Fin 2) (np_sub (Fin 1) (norm_cdf (np_abs z))) in
  compute_test_result c v =
  Ok {| p_control := rate c; p_variant := rate v; p_pooled := pooled c v;
        se := Fin (standard_error c v); z_stat := z; p_value := p;
        significant := np_ltb p (Fin alpha) |}.
Proof.
  rewrite (compute_test_result_unfold c v valid_defined).
  rewrite (np_sqrt_nonneg _ variance_term_nonneg). reflexivity.
Qed.

Lemma compute_test_result_rates :
  exists r, compute_test_result c v = Ok r
    /\ p_control r = rate c /\ p_variant r = rate v /\ p_pooled r = pooled c v.
Proof.
  rewrite compute_test_result_valid.
  eexists; split; [reflexivity |]. cbn. repeat split.
Qed.

End ValidArms.

(** Validity of a concrete arm is a computation on integers. *)
Ltac valid_arm := unfold valid; cbn; lia.

(** C1.  On every valid pair of arms [compute_test_result] raises nothing and
    returns the two rates [conversions / visitors], the pooled rate
    [(sum of conversions) / (sum of visitors)], the standard error
    [sqrt (pooled * (1 - pooled) * (1 / n_control + 1 / n_variant))], the
    z statistic [(variant_rate - control_rate) / standard_error] (a float64
    division, and the quotient of the reals whenever the standard error is
    not zero), the p-value [2 * (1 - Phi |z|)], and a verdict that is true
    exactly when the p-value is a number below 0.05. *)
Theorem compute_test_result_formulas (c v : Variant) :
  valid c -> valid v ->
  exists r, compute_test_result c v = Ok r
    /\ p_control r = rate c
    /\ p_variant r = rate v
    /\ p_pooled r = pooled c v
    /\ se r = Fin (standard_error c v)
    /\ z_stat r = np_div (Fin (rate v - rate c)) (Fin (standard_error c v))
    /\ (standard_error c v <> 0 ->
        z_stat r = Fin ((rate v - rate c) / standard_error c v))
    /\ p_value r = np_mul (Fin 2) (np_sub (Fin 1) (norm_cdf (np_abs (z_stat r))))
    /\ (forall z, z_stat r = Fin z -> p_value r = Fin (2 * (1 - Phi (Rabs z))))
    /\ (significant r = true <-> exists p, p_value r = Fin p /\ p < 5 / 100).
Proof.
  intros Hc Hv.
  rewrite (compute_test_result_unfold c v (valid_defined c v Hc Hv)).
  rewrite (np_sqrt_nonneg _ (variance_term_nonneg c v Hc Hv)).
  fold (standard_error c v).
  eexists; split; [reflexivity |]. cbn [p_control p_variant p_pooled se z_stat p_value significant].
  repeat split; try reflexivity.
  - intros Hse. now apply np_div_fin.
  - intros z Hz. rewrite Hz. apply p_value_of_z.
  - rewrite p_value_of_z.
    destruct (np_div (Fin (rate v - rate c)) (Fin (standard_error c v))) as [x | | |];
      intros H; try discriminate H; apply np_ltb_fin in H; eexists; (split; [reflexivity |]);
      exact H.
  - rewrite p_value_of_z.
    destruct (np_div (Fin (rate v - rate c)) (Fin (standard_error c v))) as [x | | |];
      intros (p & Hp & Hlt); try discriminate Hp; injection Hp as <-;
      apply np_ltb_fin; exact Hlt.
Qed.

Lemma reference_valid : valid reference_control /\ valid reference_variant.
Proof. valid_arm. Qed.

Lemma compute_test_result_formulas_witness :
  exists r, compute_test_result reference_control reference_variant = Ok r
    /\ p_control r = rate reference_control
    /\ p_variant r = rate reference_variant
    /\ p_pooled r = pooled reference_control reference_variant
    /\ se r = Fin (standard_error reference_control reference_variant)
    /\ z_stat r = np_div (Fin (rate reference_variant - rate reference_control))
                         (Fin (standard_error reference_control reference_variant))
    /\ (standard_error reference_control reference_variant <> 0 ->
        z_stat r = Fin ((rate reference_variant - rate reference_control)
                        / standard_error reference_control reference_variant))
    /\ p_value r = np_mul (Fin 2) (np_sub (Fin 1) (norm_cdf (np_abs (z_stat r))))
    /\ (forall z, z_stat r = Fin z -> p_value r = Fin (2 * (1 - Phi (Rabs z))))
    /\ (significant r = true <-> exists p, p_value r = Fin p /\ p < 5 / 100).
Proof.
  apply (compute_test_result_formulas reference_control reference_variant).
  - valid_arm.
  - valid_arm.
Defined.

(** ** The degenerate case: a pooled rate of 0 or 1 *)

Lemma degenerate_rates (c v : Variant) :
  valid c -> valid v -> pooled c v = 0 \/ pooled c v = 1 -> rate v - rate c = 0.
Proof.
  intros Hc Hv Hp.
  destruct (valid_reals c Hc) as [Hnc [Hc0 Hc1]], (valid_reals v Hv) as [Hnv [Hv0 Hv1]].
  set (n := IZR (visitor_count c) + IZR (visitor_count v)).
  assert (Hn : 0 < n) by (unfold n; lra).
  assert (Hs : IZR (conversion_count c) + IZR (conversion_count v) = pooled c v * n).
  { unfold pooled. fold n. field. lra. }
  unfold rate. destruct Hp as [Hp | Hp]; rewrite Hp in Hs.
  - replace (IZR (conversion_count c)) with 0 by lra.
    replace (IZR (conversion_count v)) with 0 by lra.
    unfold Rdiv. ring.
  - replace (IZR (conversion_count c)) with (IZR (visitor_count c)) by (unfold n in Hs; lra).
    replace (IZR (conversion_count v)) with (IZR (visitor_count v)) by (unfold n in Hs; lra).
    field. lra.
Qed.

Lemma degenerate_standard_error (c v : Variant) :
  pooled c v = 0 \/ pooled c v = 1 -> standard_error c v = 0.
Proof.
  intros Hp. unfold standard_error, variance_term.
  replace (pooled c v * (1 - pooled c v)) with 0 by (destruct Hp as [-> | ->]; ring).
  rewrite Rmult_0_l. apply sqrt_0.
Qed.

(** The record the script computes on a degenerate pair. *)
Lemma degenerate_result (c v : Variant) :
  valid c -> valid v -> pooled c v = 0 \/ pooled c v = 1 ->
  compute_test_result c v =
  Ok {| p_control := rate c; p_variant := rate v; p_pooled := pooled c v;
        se := Fin 0; z_stat := NaN; p_value := NaN; significant := false |}.
Proof.
  intros Hc Hv Hp.
  rewrite (compute_test_result_unfold c v (valid_defined c v Hc Hv)).
  rewrite (np_sqrt_nonneg _ (variance_term_nonneg c v Hc Hv)).
  fold (standard_error c v).
  rewrite (degenerate_standard_error c v Hp), (degenerate_rates c v Hc Hv Hp).
  unfold np_div. destruct (Req_dec_T 0 0) as [_ | N]; [| now destruct N].
  reflexivity.
Qed.

Lemma empty_arms_degenerate :
  valid empty_control /\ valid empty_variant
  /\ (pooled empty_control empty_variant = 0 \/ pooled empty_control empty_variant = 1).
Proof.
  repeat split; try (cbn; lia).
  left. unfold pooled. cbn. unfold Rdiv. ring.
Qed.

(** C2, as the code behaves.  On a valid pair whose pooled rate is 0 or 1 the
    standard error is exactly 0 and lines 22-35 raise nothing, but the
    z statistic is the float64 quotient [0 / 0]: the z statistic and the
    p-value are both [nan], and the verdict is false. *)
Theorem degenerate_variance_yields_nan (c v : Variant) :
  valid c -> valid v -> pooled c v = 0 \/ pooled c v = 1 ->
  exists r, compute_test_result c v = Ok r
    /\ se r = Fin 0 /\ z_stat r = NaN /\ p_value r = NaN /\ significant r = false.
Proof.
  intros Hc Hv Hp. rewrite (degenerate_result c v Hc Hv Hp).
  eexists; split; [reflexivity |]. cbn. repeat split.
Qed.

Lemma degenerate_variance_yields_nan_witness :
  (valid empty_control /\ valid empty_variant
   /\ (pooled empty_control empty_variant = 0 \/ pooled empty_control empty_variant = 1))
  /\ exists r, compute_test_result empty_control empty_variant = Ok r
    /\ se r = Fin 0 /\ z_stat r = NaN /\ p_value r = NaN /\ significant r = false.
Proof.
  split; [exact empty_arms_degenerate |].
  apply (degenerate_variance_yields_nan empty_control empty_variant);
    apply empty_arms_degenerate.
Defined.

(** C2, refuted as stated: on control=(100,0), variant=(100,0) the
    z statistic is not 0 and the p-value is not 1; both are [nan]. *)
Lemma degenerate_case_is_nan_not_zero :
  exists r, compute_test_result empty_control empty_variant = Ok r
    /\ z_stat r = NaN /\ p_value r = NaN
    /\ z_stat r <> Fin 0 /\ p_value r <> Fin 1.
Proof.
  destruct empty_arms_degenerate as (Hc & Hv & Hp).
  rewrite (degenerate_result _ _ Hc Hv Hp).
  eexists; split; [reflexivity |]. cbn. repeat split; discriminate.
Qed.

(** ** Which inputs raise *)

(** The outcome of lines 22-35 by the first division that fails: the
    divisions are evaluated in the order control rate, variant rate, pooled
    rate, and the two inverses of line 29 cannot fail once the rates have
    been computed. *)
Lemma compute_test_result_first_failure (c v : Variant) :
  let cc := conversion_count c in
  let cv := visitor_count c in
  let vc := conversion_count v in
  let vv := visitor_count v in
  (cv = 0%Z /\ compute_test_result c v = Raise ZeroDivisionError)
  \/ (cv <> 0%Z /\ (float_overflow_bound * Z.abs cv <= Z.abs cc)%Z
      /\ compute_test_result c v = Raise OverflowError)
  \/ (division_defined cc cv /\ vv = 0%Z
      /\ compute_test_result c v = Raise ZeroDivisionError)
  \/ (division_defined cc cv /\ vv <> 0%Z
      /\ (float_overflow_bound * Z.abs vv <= Z.abs vc)%Z
      /\ compute_test_result c v = Raise OverflowError)
  \/ (division_defined cc cv /\ division_defined vc vv /\ (cv + vv)%Z = 0%Z
      /\ compute_test_result c v = Raise ZeroDivisionError)
  \/ (division_defined cc cv /\ division_defined vc vv /\ (cv + vv)%Z <> 0%Z
      /\ (float_overflow_bound * Z.abs (cv + vv) <= Z.abs (cc + vc))%Z
      /\ compute_test_result c v = Raise OverflowError)
  \/ (divisions_defined c v /\ exists r, compute_test_result c v = Ok r).
Proof.
  intros cc cv vc vv. unfold compute_test_result.
  fold cc cv vc vv.
  destruct (py_int_truediv_cases cc cv) as [[E1 R1] | [(N1 & O1 & R1) | [D1 R1]]];
    rewrite R1; cbn [bind]; [now left | right; now left | right; right].
  destruct (py_int_truediv_cases vc vv) as [[E2 R2] | [(N2 & O2 & R2) | [D2 R2]]];
    rewrite R2; cbn [bind]; [now left | right; now left | right; right].
  destruct (py_int_truediv_cases (cc + vc) (cv + vv))
    as [[E3 R3] | [(N3 & O3 & R3) | [D3 R3]]];
    rewrite R3; cbn [bind]; [now left | right; now left | right; right].
  rewrite (py_int_truediv_ok _ _ (division_defined_one _ (division_defined_nonzero _ _ D1))),
    (py_int_truediv_ok _ _ (division_defined_one _ (division_defined_nonzero _ _ D2))).
  cbn [bind]. split; [exact (conj D1 (conj D2 D3)) | eexists; reflexivity].
Qed.

Lemma compute_test_result_total_cases (c v : Variant) :
  (~ divisions_defined c v
   /\ (compute_test_result c v = Raise ZeroDivisionError
       \/ compute_test_result c v = Raise OverflowError))
  \/ (divisions_defined c v /\ exists r, compute_test_result c v = Ok r).
Proof.
  destruct (compute_test_result_first_failure c v)
    as [[E R] | [(N & O & R) | [(D1 & E & R) | [(D1 & N & O & R)
       | [(D1 & D2 & E & R) | [(D1 & D2 & N & O & R) | [D R]]]]]]];
    [left; split; [| now left] | left; split; [| now right]
     | left; split; [| now left] | left; split; [| now right]
     | left; split; [| now left] | left; split; [| now right]
     | right; split; assumption];
    unfold divisions_defined, division_defined; lia.
Qed.

(** Conversions within float range: the only failure left is a zero
    divisor. *)
Lemma compute_test_result_in_range_cases (c v : Variant) :
  conversions_in_float_range c v ->
  ((visitor_count c = 0%Z \/ visitor_count v = 0%Z
    \/ (visitor_count c + visitor_count v)%Z = 0%Z)
   /\ compute_test_result c v = Raise ZeroDivisionError)
  \/ (divisions_defined c v /\ exists r, compute_test_result c v = Ok r).
Proof.
  intros HR.
  destruct (Z.eq_dec (visitor_count c) 0) as [E1 | N1];
    [| destruct (Z.eq_dec (visitor_count v) 0) as [E2 | N2];
       [| destruct (Z.eq_dec (visitor_count c + visitor_count v) 0) as [E3 | N3]]].
  4: { right. pose proof (divisions_defined_in_range c v HR N1 N2 N3) as D.
       split; [exact D |].
       rewrite (compute_test_result_unfold c v D). eexists; reflexivity. }
  all: left; split; [tauto |].
  all: destruct HR as (R1 & R2 & R3).
  all: destruct (compute_test_result_first_failure c v)
    as [[E R] | [(N & O & R) | [(D1 & E & R) | [(D1 & N & O & R)
       | [(D1 & D2 & E & R) | [(D1 & D2 & N & O & R) | [D [r R]]]]]]]];
    try exact R; exfalso.
  all: try (apply divisions_defined_nonzero in D; tauto).
  all: match goal with
       | N : ?b <> 0%Z, O : (float_overflow_bound * Z.abs ?b <= _)%Z |- _ =>
           pose proof float_overflow_bound_pos;
           assert (float_overflow_bound * 1 <= float_overflow_bound * Z.abs b)%Z
             by (apply Z.mul_le_mono_nonneg_l; lia);
           lia
       end.
Qed.

(** C3, as the code behaves.  Lines 16-35 validate nothing and never raise
    InvalidInputError.  The only exceptions they raise are those of the
    three divisions of counts, taken in the order control rate, variant
    rate, pooled rate: [ZeroDivisionError] when the first division that
    fails has a zero divisor, [OverflowError] when its quotient is of
    magnitude [2^1024 - 2^970] or more, too large for a float.  A result is
    returned exactly when the three divisions return.  When the conversion
    counts and their sum are below that magnitude, the only exception is
    [ZeroDivisionError], raised exactly when a visitor count is 0 or the two
    visitor counts add up to 0.  A negative count or a conversion count
    above its visitor count raises nothing: with positive visitor counts, a
    conversion count of magnitude up to one more than its visitor count is
    accepted. *)
Theorem compute_test_result_raises_iff (c v : Variant) :
  let cc := conversion_count c in
  let cv := visitor_count c in
  let vc := conversion_count v in
  let vv := visitor_count v in
  (forall e, compute_test_result c v = Raise e ->
             e = ZeroDivisionError \/ e = OverflowError)
  /\ ((exists r, compute_test_result c v = Ok r) <-> divisions_defined c v)
  /\ (compute_test_result c v = Raise ZeroDivisionError <->
      cv = 0%Z
      \/ (division_defined cc cv
          /\ (vv = 0%Z \/ (division_defined vc vv /\ (cv + vv)%Z = 0%Z))))
  /\ (compute_test_result c v = Raise OverflowError <->
      (cv <> 0%Z /\ quotient_overflows cc cv = true)
      \/ (division_defined cc cv
          /\ ((vv <> 0%Z /\ quotient_overflows vc vv = true)
              \/ (division_defined vc vv /\ (cv + vv)%Z <> 0%Z
                  /\ quotient_overflows (cc + vc) (cv + vv) = true))))
  /\ (conversions_in_float_range c v ->
      (compute_test_result c v = Raise ZeroDivisionError <->
       (cv = 0 \/ vv = 0 \/ cv + vv = 0)%Z)
      /\ compute_test_result c v <> Raise OverflowError
      /\ ((exists r, compute_test_result c v = Ok r) <->
          (cv <> 0 /\ vv <> 0 /\ cv + vv <> 0)%Z))
  /\ ((0 < cv)%Z -> (0 < vv)%Z ->
      (Z.abs cc <= cv + 1)%Z -> (Z.abs vc <= vv + 1)%Z ->
      exists r, compute_test_result c v = Ok r).
Proof.
  cbv zeta.
  split; [| split; [| split; [| split; [| split]]]].
  - intros e He.
    destruct (compute_test_result_total_cases c v) as [[_ [R | R]] | [_ [r R]]];
      rewrite R in He; inversion He; auto.
  - destruct (compute_test_result_total_cases c v) as [[N [R | R]] | [D [r R]]];
      rewrite R; split; intros H; try contradiction;
      try (destruct H as [? H]; discriminate H); try exact D.
    exists r. reflexivity.
  - destruct (compute_test_result_first_failure c v)
      as [[E R] | [(N & O & R) | [(D1 & E & R) | [(D1 & N & O & R)
         | [(D1 & D2 & E & R) | [(D1 & D2 & N & O & R) | [D [r R]]]]]]]];
      rewrite R; split; intros H;
      try reflexivity; try discriminate H; try tauto; exfalso.
    all: try (destruct D as (D1 & D2 & D3)).
    all: unfold division_defined in *; lia.
  - destruct (compute_test_result_first_failure c v)
      as [[E R] | [(N & O & R) | [(D1 & E & R) | [(D1 & N & O & R)
         | [(D1 & D2 & E & R) | [(D1 & D2 & N & O & R) | [D [r R]]]]]]]];
      rewrite R; split; intros H;
      try reflexivity; try discriminate H;
      try (rewrite <- quotient_overflows_true in *; tauto); exfalso.
    all: try (destruct D as (D1 & D2 & D3)).
    all: rewrite ?quotient_overflows_true in H.
    all: unfold division_defined in *; lia.
  - intros HR.
    destruct (compute_test_result_in_range_cases c v HR) as [[Z R] | [D [r R]]];
      rewrite R.
    + split; [tauto |]. split; [discriminate |].
      split; [intros [? H]; discriminate H | intros H; exfalso; lia].
    + apply divisions_defined_nonzero in D.
      split; [split; [discriminate | intros H; exfalso; lia] |].
      split; [discriminate |].
      split; [intros _; exact D | intros _; exists r; reflexivity].
  - intros Pc Pv Bc Bv.
    assert (D : divisions_defined c v).
    { pose proof float_overflow_bound_large as HT.
      assert (H3 : (3 <= float_overflow_bound)%Z)
        by (apply Z.le_trans with (2 := HT); apply Z.leb_le; vm_compute; reflexivity).
      assert (M1 : (3 * Z.abs (visitor_count c) <= float_overflow_bound * Z.abs (visitor_count c))%Z)
        by (apply Z.mul_le_mono_nonneg_r; lia).
      assert (M2 : (3 * Z.abs (visitor_count v) <= float_overflow_bound * Z.abs (visitor_count v))%Z)
        by (apply Z.mul_le_mono_nonneg_r; lia).
      assert (M3 : (3 * Z.abs (visitor_count c + visitor_count v)
                    <= float_overflow_bound * Z.abs (visitor_count c + visitor_count v))%Z)
        by (apply Z.mul_le_mono_nonneg_r; lia).
      unfold divisions_defined, division_defined. lia. }
    rewrite (compute_test_result_unfold c v D). eexists; reflexivity.
Qed.

Lemma overflowing_control_overflows :
  quotient_overflows (conversion_count overflowing_control)
                     (visitor_count overflowing_control) = true.
Proof. vm_compute. reflexivity. Qed.

Lemma compute_test_result_raises_iff_witness :
  compute_test_result no_visitors small_variant = Raise ZeroDivisionError
  /\ compute_test_result overflowing_control small_variant = Raise OverflowError
  /\ exists r, compute_test_result overfull_control small_variant = Ok r.
Proof.
  split; [| split].
  - apply (proj1 (proj2 (proj2 (compute_test_result_raises_iff no_visitors small_variant)))).
    left. reflexivity.
  - apply (proj1 (proj2 (proj2 (proj2
             (compute_test_result_raises_iff overflowing_control small_variant))))).
    left. split; [discriminate | exact overflowing_control_overflows].
  - apply (proj2 (proj2 (proj2 (proj2 (proj2
             (compute_test_result_raises_iff overfull_control small_variant)))))).
    all: cbn; lia.
Defined.

(** C3, refuted as stated: an arm with 10 visitors and 11 conversions is not
    valid, and [compute_test_result] returns a result on it. *)
Lemma conversions_above_visitors_accepted :
  ~ valid overfull_control
  /\ exists r, compute_test_result overfull_control small_variant = Ok r.
Proof.
  split.
  - unfold valid, overfull_control. cbn. lia.
  - assert (HR : conversions_in_float_range overfull_control small_variant).
    { pose proof float_overflow_bound_large as HT.
      assert (H : (2 ^ 10 <= float_overflow_bound)%Z)
        by (apply Z.le_trans with (2 := HT); apply Z.leb_le; vm_compute; reflexivity).
      unfold conversions_in_float_range; cbn. cbn in H. lia. }
    destruct (compute_test_result_in_range_cases overfull_control small_variant HR)
      as [[Hz _] | [_ Hr]]; [| exact Hr].
    cbn in Hz. lia.
Qed.

(** ** The z statistic grows with the variant's conversions *)

(** With [a] the control rate, [w] the variant's share of the visitors and
    [D] the difference of the rates, the pooled rate is [a + w * D]. *)
Lemma square_over_variance_mono (a w D1 D2 : R) :
  0 <= a <= 1 -> 0 <= w -> 0 <= D1 <= D2 -> a + w * D2 <= 1 ->
  D1 * D1 * ((a + w * D2) * (1 - (a + w * D2)))
  <= D2 * D2 * ((a + w * D1) * (1 - (a + w * D1))).
Proof.
  intros Ha Hw HD Hp.
  assert (H1 : 0 <= a * (1 - a) * D2) by (apply Rmult_le_pos; [apply Rmult_le_pos |]; lra).
  assert (H2 : 0 <= a * (1 - a - w * D2)) by (apply Rmult_le_pos; lra).
  assert (H3 : 0 <= w * D2 * (1 - a))
    by (apply Rmult_le_pos; [apply Rmult_le_pos |]; lra).
  assert (H4 : 0 <= D1 * (a * (1 - a - w * D2) + w * D2 * (1 - a)))
    by (apply Rmult_le_pos; lra).
  assert (H5 : 0 <= (D2 - D1)
                    * (a * (1 - a) * D2 + D1 * (a * (1 - a - w * D2) + w * D2 * (1 - a))))
    by (apply Rmult_le_pos; lra).
  apply Rminus_le. apply Ropp_le_cancel. rewrite Ropp_0.
  apply Rle_trans with (1 := H5). right. ring.
Qed.

Lemma quotient_by_sqrt_mono (D1 D2 Q1 Q2 : R) :
  0 < Q1 -> 0 < Q2 -> D1 <= D2 ->
  (0 <= D1 -> D1 * D1 * Q2 <= D2 * D2 * Q1) ->
  (D2 <= 0 -> D2 * D2 * Q1 <= D1 * D1 * Q2) ->
  D1 / sqrt Q1 <= D2 / sqrt Q2.
Proof.
  intros HQ1 HQ2 HD Hpos Hneg.
  pose proof (sqrt_lt_R0 Q1 HQ1) as Hs1. pose proof (sqrt_lt_R0 Q2 HQ2) as Hs2.
  pose proof (sqrt_sqrt Q1 (Rlt_le _ _ HQ1)) as E1.
  pose proof (sqrt_sqrt Q2 (Rlt_le _ _ HQ2)) as E2.
  set (s1 := sqrt Q1) in *. set (s2 := sqrt Q2) in *.
  assert (Hcross : D1 * s2 <= D2 * s1).
  { destruct (Rle_dec 0 D1) as [H0 | H0].
    - specialize (Hpos H0). apply Rnot_lt_le. intros Hc.
      assert (0 <= D2 * s1) by (apply Rmult_le_pos; lra).
      assert (D2 * s1 * (D2 * s1) < D1 * s2 * (D1 * s2)) by nra.
      replace (D2 * s1 * (D2 * s1)) with (D2 * D2 * Q1) in * by (rewrite <- E1; ring).
      replace (D1 * s2 * (D1 * s2)) with (D1 * D1 * Q2) in * by (rewrite <- E2; ring).
      lra.
    - destruct (Rle_dec D2 0) as [H2 | H2].
      + specialize (Hneg H2). apply Rnot_lt_le. intros Hc.
        assert (0 <= - D1 * s2) by (apply Rmult_le_pos; lra).
        assert (- D1 * s2 * (- D1 * s2) < - D2 * s1 * (- D2 * s1)) by nra.
        replace (- D2 * s1 * (- D2 * s1)) with (D2 * D2 * Q1) in * by (rewrite <- E1; ring).
        replace (- D1 * s2 * (- D1 * s2)) with (D1 * D1 * Q2) in * by (rewrite <- E2; ring).
        lra.
      + assert (D1 * s2 <= 0) by nra. assert (0 <= D2 * s1) by nra. lra. }
  apply Rmult_le_reg_r with (s1 * s2); [apply Rmult_lt_0_compat; assumption |].
  replace (D1 / s1 * (s1 * s2)) with (D1 * s2) by (field; lra).
  replace (D2 / s2 * (s1 * s2)) with (D2 * s1) by (field; lra).
  exact Hcross.
Qed.

Lemma pooled_as_mix (c v : Variant) :
  valid c -> valid v ->
  pooled c v =
  rate c + IZR (visitor_count v) / (IZR (visitor_count c) + IZR (visitor_count v))
           * (rate v - rate c).
Proof.
  intros Hc Hv.
  destruct (valid_reals c Hc) as [H1 _], (valid_reals v Hv) as [H2 _].
  unfold pooled, rate. field. repeat split; lra.
Qed.

Lemma z_quotient_mono (c v1 v2 : Variant) :
  valid c -> valid v1 -> valid v2 ->
  visitor_count v1 = visitor_count v2 ->
  (conversion_count v1 <= conversion_count v2)%Z ->
  0 < pooled c v1 < 1 -> 0 < pooled c v2 < 1 ->
  (rate v1 - rate c) / standard_error c v1 <= (rate v2 - rate c) / standard_error c v2.
Proof.
  intros Hc H1 H2 Hn Hle Hp1 Hp2.
  pose proof (rate_range c Hc) as Ha.
  pose proof (pooled_as_mix c v1 Hc H1) as M1.
  pose proof (pooled_as_mix c v2 Hc H2) as M2.
  pose proof (inverse_sum_pos c v1 Hc H1) as HK.
  destruct (valid_reals c Hc) as [Hnc _], (valid_reals v2 H2) as [Hnv _].
  assert (HD : rate v1 - rate c <= rate v2 - rate c).
  { unfold rate. rewrite Hn. apply IZR_le in Hle.
    apply Rplus_le_compat_r, Rmult_le_compat_r; [| exact Hle].
    left. now apply Rinv_0_lt_compat. }
  unfold standard_error.
  apply quotient_by_sqrt_mono;
    try (apply variance_term_pos; assumption); try exact HD;
    unfold variance_term; rewrite Hn in *; rewrite M1, M2 in *;
    set (a := rate c) in *;
    set (w := IZR (visitor_count v2) / (IZR (visitor_count c) + IZR (visitor_count v2))) in *;
    set (K := 1 / IZR (visitor_count c) + 1 / IZR (visitor_count v2)) in *;
    set (D1 := rate v1 - a) in *; set (D2 := rate v2 - a) in *;
    assert (Hw : 0 <= w) by (apply Rmult_le_pos; [| left; apply Rinv_0_lt_compat]; lra).
  - intros H0.
    pose proof (square_over_variance_mono a w D1 D2 Ha Hw (conj H0 HD) (Rlt_le _ _ (proj2 Hp2))) as Hk.
    apply (Rmult_le_compat_r K) in Hk; [| lra].
    apply Rle_trans with (2 := (Req_le _ _ (eq_refl _))).
    eapply Rle_trans; [| eapply Rle_trans; [exact Hk |]]; right; ring.
  - intros H0.
    assert (Ha' : 0 <= 1 - a <= 1) by lra.
    assert (HD' : 0 <= - D2 <= - D1) by lra.
    assert (Hp' : 1 - a + w * - D1 <= 1) by lra.
    pose proof (square_over_variance_mono (1 - a) w (- D2) (- D1) Ha' Hw HD' Hp') as Hk.
    apply (Rmult_le_compat_r K) in Hk; [| lra].
    eapply Rle_trans; [| eapply Rle_trans; [exact Hk |]]; right; ring.
Qed.

(** The z statistic is a quotient of reals off the degenerate case and [nan]
    on it. *)
Lemma z_stat_cases (c v : Variant) :
  valid c -> valid v ->
  exists r, compute_test_result c v = Ok r
    /\ ((0 < pooled c v < 1
         /\ z_stat r = Fin ((rate v - rate c) / standard_error c v))
        \/ ((pooled c v = 0 \/ pooled c v = 1) /\ z_stat r = NaN)).
Proof.
  intros Hc Hv.
  pose proof (pooled_range c v Hc Hv) as [H0 H1].
  destruct (Req_dec_T (pooled c v) 0) as [E0 | N0];
    [| destruct (Req_dec_T (pooled c v) 1) as [E1 | N1]].
  - rewrite (degenerate_result c v Hc Hv (or_introl E0)).
    eexists; split; [reflexivity |]. right. split; [now left | reflexivity].
  - rewrite (degenerate_result c v Hc Hv (or_intror E1)).
    eexists; split; [reflexivity |]. right. split; [now right | reflexivity].
  - assert (Hp : 0 < pooled c v < 1) by lra.
    rewrite (compute_test_result_unfold c v (valid_defined c v Hc Hv)).
    rewrite (np_sqrt_nonneg _ (variance_term_nonneg c v Hc Hv)).
    fold (standard_error c v).
    pose proof (standard_error_pos c v Hc Hv Hp) as Hse.
    eexists; split; [reflexivity |]. left. split; [exact Hp |].
    cbn [z_stat]. apply np_div_fin. lra.
Qed.

(** C7.  With both visitor counts fixed and the control arm fixed, a valid
    variant arm with at least as many conversions never has a smaller
    z statistic: the comparison [z2 < z1] is false, and whenever both
    statistics are numbers (which they are unless a pooled rate is 0 or 1)
    the first is at most the second. *)
Theorem z_stat_monotone_in_variant_conversions (c v1 v2 : Variant) :
  valid c -> valid v1 -> valid v2 ->
  visitor_count v1 = visitor_count v2 ->
  (conversion_count v1 <= conversion_count v2)%Z ->
  exists r1 r2,
    compute_test_result c v1 = Ok r1 /\ compute_test_result c v2 = Ok r2
    /\ np_ltb (z_stat r2) (z_stat r1) = false
    /\ (forall z1 z2, z_stat r1 = Fin z1 -> z_stat r2 = Fin z2 -> z1 <= z2)
    /\ (0 < pooled c v1 < 1 -> 0 < pooled c v2 < 1 ->
        exists z1 z2, z_stat r1 = Fin z1 /\ z_stat r2 = Fin z2).
Proof.
  intros Hc H1 H2 Hn Hle.
  destruct (z_stat_cases c v1 Hc H1) as (r1 & E1 & C1).
  destruct (z_stat_cases c v2 Hc H2) as (r2 & E2 & C2).
  exists r1, r2. split; [exact E1 |]. split; [exact E2 |].
  destruct C1 as [[P1 Z1] | [P1 Z1]], C2 as [[P2 Z2] | [P2 Z2]]; rewrite Z1, Z2.
  - pose proof (z_quotient_mono c v1 v2 Hc H1 H2 Hn Hle P1 P2) as Hz.
    repeat split.
    + unfold np_ltb. destruct (Rlt_dec _ _) as [Hlt | _]; [lra | reflexivity].
    + intros z1 z2 Ez1 Ez2. injection Ez1 as <-. injection Ez2 as <-. exact Hz.
    + intros _ _. eexists; eexists; split; reflexivity.
  - repeat split; try discriminate. intros _ Hp. lra.
  - repeat split; try discriminate. intros Hp _. lra.
  - repeat split; try discriminate. intros Hp _. lra.
Qed.

Lemma z_stat_monotone_in_variant_conversions_witness :
  exists r1 r2,
    compute_test_result reference_control reference_variant = Ok r1
    /\ compute_test_result reference_control variant_600 = Ok r2
    /\ np_ltb (z_stat r2) (z_stat r1) = false
    /\ (forall z1 z2, z_stat r1 = Fin z1 -> z_stat r2 = Fin z2 -> z1 <= z2)
    /\ (0 < pooled reference_control reference_variant < 1 ->
        0 < pooled reference_control variant_600 < 1 ->
        exists z1 z2, z_stat r1 = Fin z1 /\ z_stat r2 = Fin z2).
Proof.
  apply (z_stat_monotone_in_variant_conversions reference_control reference_variant variant_600).
  - valid_arm.
  - valid_arm.
  - valid_arm.
  - reflexivity.
  - cbn; lia.
Defined.

(** * The power curve of lines 218-238 *)

Lemma power_variance_pos (p n : R) : 0 < p < 1 -> 0 < n -> 0 < p * (1 - p) * (2 / n).
Proof.
  intros Hp Hn. apply Rmult_lt_0_compat; [apply Rmult_lt_0_compat; lra |].
  apply Rdiv_lt_0_compat; lra.
Qed.

(** Off the degenerate pooled rates the loop body computes the formula. *)
Lemma power_finite (d p n : R) :
  0 < p < 1 -> 0 < n -> power d p n = Fin (power_formula d p n).
Proof.
  intros Hp Hn. pose proof (power_variance_pos p n Hp Hn) as Hv.
  unfold power, power_formula.
  rewrite np_div_fin by lra. cbn [np_mul].
  rewrite np_sqrt_nonneg by lra.
  rewrite np_div_fin by (apply Rgt_not_eq, sqrt_lt_R0, Hv).
  reflexivity.
Qed.

(** C5.  For a positive effect size and a pooled rate strictly between 0 and
    1 the power is a number at every positive sample size, it is the value
    [1 - Phi (1.96 - effect / sqrt (pooled * (1 - pooled) * (2 / n)))], and it
    does not decrease when the sample size grows. *)
Theorem power_monotone_in_sample_size (d p n1 n2 : R) :
  0 < d -> 0 < p < 1 -> 0 < n1 <= n2 ->
  exists w1 w2,
    power d p n1 = Fin w1 /\ power d p n2 = Fin w2
    /\ w1 = power_formula d p n1 /\ w2 = power_formula d p n2
    /\ w1 <= w2.
Proof.
  intros Hd Hp [Hn1 Hn].
  assert (Hn2 : 0 < n2) by lra.
  exists (power_formula d p n1), (power_formula d p n2).
  rewrite !power_finite by assumption.
  repeat split.
  pose proof (power_variance_pos p n1 Hp Hn1) as V1.
  pose proof (power_variance_pos p n2 Hp Hn2) as V2.
  assert (HV : p * (1 - p) * (2 / n2) <= p * (1 - p) * (2 / n1)).
  { apply Rmult_le_compat_l; [apply Rmult_le_pos; lra |].
    apply Rmult_le_compat_l; [lra |]. apply Rinv_le_contravar; assumption. }
  pose proof (sqrt_le_1_alt _ _ HV) as HS.
  pose proof (sqrt_lt_R0 _ V1) as S1. pose proof (sqrt_lt_R0 _ V2) as S2.
  unfold power_formula.
  set (s1 := sqrt (p * (1 - p) * (2 / n1))) in *.
  set (s2 := sqrt (p * (1 - p) * (2 / n2))) in *.
  assert (Hq : d / s1 <= d / s2).
  { apply Rmult_le_compat_l; [lra |]. apply Rinv_le_contravar; assumption. }
  assert (HP : Phi (critical_z - d / s2) <= Phi (critical_z - d / s1))
    by (apply Phi_increasing; lra).
  lra.
Qed.

Lemma power_monotone_in_sample_size_witness :
  exists w1 w2,
    power (8 / 1000) (54 / 1000) 1000 = Fin w1
    /\ power (8 / 1000) (54 / 1000) 50000 = Fin w2
    /\ w1 = power_formula (8 / 1000) (54 / 1000) 1000
    /\ w2 = power_formula (8 / 1000) (54 / 1000) 50000
    /\ w1 <= w2.
Proof.
  apply (power_monotone_in_sample_size (8 / 1000) (54 / 1000) 1000 50000); lra.
Defined.

(** ** No effect: the power at a difference of 0 *)

Lemma power_at_zero_effect (p n : R) :
  0 < p < 1 -> 0 < n -> power 0 p n = Fin (1 - Phi critical_z).
Proof.
  intros Hp Hn. rewrite power_finite by assumption. unfold power_formula.
  unfold Rdiv at 1. rewrite Rmult_0_l, Rminus_0_r. reflexivity.
Qed.

Lemma upper_tail_at_critical_z :
  2499 / 100000 <= 1 - Phi critical_z <= 25 / 1000.
Proof.
  pose proof Phi_196 as H. unfold critical_z. lra.
Qed.

(** C6, as the code behaves.  At an effect size of 0, for every pooled rate
    strictly between 0 and 1 and every positive sample size, the power is
    the same number [1 - Phi 1.96], which lies between 0.02499 and 0.025:
    half of alpha, not alpha, since line 227 counts one tail only. *)
Theorem power_at_zero_effect_is_half_alpha (p n : R) :
  0 < p < 1 -> 0 < n ->
  power 0 p n = Fin (1 - Phi critical_z)
  /\ 2499 / 100000 <= 1 - Phi critical_z <= 25 / 1000.
Proof.
  intros Hp Hn. split.
  - now apply power_at_zero_effect.
  - exact upper_tail_at_critical_z.
Qed.

Lemma power_at_zero_effect_is_half_alpha_witness :
  power 0 (54 / 1000) 10000 = Fin (1 - Phi critical_z)
  /\ 2499 / 100000 <= 1 - Phi critical_z <= 25 / 1000.
Proof.
  apply (power_at_zero_effect_is_half_alpha (54 / 1000) 10000); lra.
Defined.

(** C6, refuted as stated: at effect size 0, pooled rate 0.054 and sample
    size 10000 the power is at most 0.025, so it is at least 0.025 away
    from alpha = 0.05. *)
Lemma power_at_zero_effect_is_not_alpha :
  exists w, power 0 (54 / 1000) 10000 = Fin w /\ w <= 25 / 1000 /\ 25 / 1000 <= Rabs (w - alpha).
Proof.
  exists (1 - Phi critical_z).
  split; [apply power_at_zero_effect; lra |].
  pose proof upper_tail_at_critical_z as [H1 H2].
  split; [exact H2 |].
  unfold alpha. rewrite Rabs_left by lra. lra.
Qed.

(** * Confidence intervals (lines 144-155) *)

Lemma ci_finite (x : R) (n : Z) :
  0 <= x <= 1 -> (0 < n)%Z -> ci x n = Ok (Fin (margin x n)).
Proof.
  intros Hx Hn. unfold ci, py_float_int_truediv.
  assert (E : Z.eqb n 0 = false) by (apply Z.eqb_neq; lia).
  rewrite E. cbn [bind].
  apply IZR_lt in Hn.
  rewrite np_sqrt_nonneg.
  - reflexivity.
  - apply Rmult_le_pos; [apply Rmult_le_pos; lra |].
    left. now apply Rinv_0_lt_compat.
Qed.

Lemma confidence_interval_finite (x : R) (n : Z) :
  0 <= x <= 1 -> (0 < n)%Z ->
  confidence_interval x n = Ok (Fin (x - margin x n), Fin (x + margin x n)).
Proof.
  intros Hx Hn. unfold confidence_interval. rewrite ci_finite by assumption.
  reflexivity.
Qed.

Lemma two_visitors_margin : 1 / 2 < margin (rate two_visitors) (visitor_count two_visitors).
Proof.
  unfold margin, rate, two_visitors, critical_z. cbn [conversion_count visitor_count].
  assert (H : 26 / 100 < sqrt (1 / 2 * (1 - 1 / 2) / 2)).
  { rewrite <- (sqrt_square (26 / 100)) by lra. apply sqrt_lt_1_alt. lra. }
  lra.
Qed.

(** C8.  For a rate in [0,1] and a positive visitor count the half-width is
    [1.96 * sqrt (rate * (1 - rate) / n)], the interval is exactly
    [(rate - margin, rate + margin)], and the error bar of line 154 is that
    interval in percent; nothing clamps it.  For the valid arm with 2
    visitors and 1 conversion the lower bound is below 0 and the upper
    bound above 1. *)
Theorem confidence_interval_unclamped :
  (forall (x : R) (n : Z),
      0 <= x <= 1 -> (0 < n)%Z ->
      ci x n = Ok (Fin (critical_z * sqrt (x * (1 - x) / IZR n)))
      /\ confidence_interval x n = Ok (Fin (x - margin x n), Fin (x + margin x n))
      /\ ci_errorbar x n
         = Ok (Fin (x * 100 - margin x n * 100), Fin (x * 100 + margin x n * 100)))
  /\ (exists a lo hi,
         valid a
         /\ confidence_interval (rate a) (visitor_count a) = Ok (Fin lo, Fin hi)
         /\ lo < 0 /\ 1 < hi).
Proof.
  split.
  - intros x n Hx Hn. split; [| split].
    + now apply ci_finite.
    + now apply confidence_interval_finite.
    + unfold ci_errorbar. rewrite ci_finite by assumption. reflexivity.
  - exists two_visitors.
    exists (rate two_visitors - margin (rate two_visitors) (visitor_count two_visitors)).
    exists (rate two_visitors + margin (rate two_visitors) (visitor_count two_visitors)).
    assert (Hv : valid two_visitors) by (valid_arm).
    split; [exact Hv |]. split.
    + apply confidence_interval_finite; [now apply rate_range | apply Hv].
    + pose proof two_visitors_margin as Hm.
      assert (Hr : rate two_visitors = 1 / 2) by (unfold rate; cbn; lra).
      rewrite Hr in *. lra.
Qed.

Lemma confidence_interval_unclamped_witness :
  (0 <= 1 / 2 <= 1 /\ (0 < 2)%Z)
  /\ ci (1 / 2) 2%Z = Ok (Fin (critical_z * sqrt (1 / 2 * (1 - 1 / 2) / IZR 2)))
  /\ confidence_interval (1 / 2) 2%Z
     = Ok (Fin (1 / 2 - margin (1 / 2) 2%Z), Fin (1 / 2 + margin (1 / 2) 2%Z))
  /\ ci_errorbar (1 / 2) 2%Z
     = Ok (Fin (1 / 2 * 100 - margin (1 / 2) 2%Z * 100),
           Fin (1 / 2 * 100 + margin (1 / 2) 2%Z * 100)).
Proof.
  split; [split; [lra | lia] |].
  apply (proj1 confidence_interval_unclamped (1 / 2) 2%Z); [lra | lia].
Defined.

(** * The search for the sample size of 80% power (lines 218, 237-238) *)

Lemma linspace_length (a b : R) (num : nat) : length (linspace a b num) = num.
Proof. unfold linspace. now rewrite length_map, length_seq. Qed.

Lemma linspace_range (a b : R) (num : nat) (x : R) :
  a <= b -> (2 <= num)%nat -> In x (linspace a b num) -> a <= x <= b.
Proof.
  intros Hab Hnum Hin. unfold linspace in Hin.
  apply in_map_iff in Hin. destruct Hin as (i & <- & Hi).
  apply in_seq in Hi. destruct Hi as [_ Hi]. cbn in Hi.
  assert (Hd : 0 < INR (num - 1)) by (apply lt_0_INR; lia).
  assert (Hi0 : 0 <= INR i) by apply pos_INR.
  assert (Hi1 : INR i <= INR (num - 1)) by (apply le_INR; lia).
  assert (Hq : 0 <= INR i / INR (num - 1) <= 1) by (apply div_unit_interval; lra).
  replace (INR i * ((b - a) / INR (num - 1))) with (INR i / INR (num - 1) * (b - a))
    by (field; lra).
  destruct Hq as [Hq0 Hq1]. split.
  - assert (0 <= INR i / INR (num - 1) * (b - a)) by (apply Rmult_le_pos; lra). lra.
  - assert (INR i / INR (num - 1) * (b - a) <= 1 * (b - a))
      by (apply Rmult_le_compat_r; lra).
    lra.
Qed.

Lemma sample_sizes_range (n : R) : In n sample_sizes -> 1000 <= n <= 50000.
Proof. apply linspace_range; [lra | lia]. Qed.

Lemma sample_sizes_length : length sample_sizes = 100%nat.
Proof. apply linspace_length. Qed.

(** ** [np.argmin] *)

(** The scan stays inside the sequence. *)
Lemma argmin_loop_bound (l : list npfloat) :
  forall (i : nat) (mp : npfloat) (min_ind : nat),
    (min_ind < i)%nat ->
    (argmin_loop l i mp min_ind < i + length l)%nat.
Proof.
  induction l as [| x rest IH]; intros i mp min_ind Hlt; cbn [argmin_loop length].
  - lia.
  - destruct (np_geb x mp).
    + specialize (IH (S i) mp min_ind). lia.
    + destruct (is_nan x); [lia |].
      specialize (IH (S i) x i). lia.
Qed.

Lemma argmin_bound (l : list npfloat) :
  l <> [] -> exists k, argmin l = Ok k /\ (k < length l)%nat.
Proof.
  destruct l as [| x rest]; [congruence |]. intros _. cbn [argmin length].
  destruct (is_nan x).
  - exists 0%nat. split; [reflexivity | lia].
  - eexists; split; [reflexivity |].
    pose proof (argmin_loop_bound rest 1 x 0). lia.
Qed.

(** On numbers the scan ends on a least element: either the one it started
    from, or one of the rest. *)
Lemma argmin_loop_least (rest : list R) :
  forall (i : nat) (m : R) (min_ind : nat),
    let k := argmin_loop (map Fin rest) i (Fin m) min_ind in
    (k = min_ind /\ forall x, In x rest -> m <= x)
    \/ (exists j y, k = (i + j)%nat /\ nth_error rest j = Some y
                    /\ y < m /\ forall x, In x rest -> y <= x).
Proof.
  induction rest as [| x rest IH]; intros i m min_ind; cbn [map argmin_loop].
  - left. split; [reflexivity | intros x []].
  - unfold np_geb. destruct (Rle_dec m x) as [Hle | Hgt].
    + destruct (IH (S i) m min_ind) as [[Ek Hall] | (j & y & Ek & Ey & Hy & Hall)].
      * left. split; [exact Ek |]. intros z [<- | Hz]; [exact Hle | now apply Hall].
      * right. exists (S j), y. repeat split.
        -- rewrite Ek. lia.
        -- exact Ey.
        -- exact Hy.
        -- intros z [<- | Hz]; [lra | now apply Hall].
    + cbn [is_nan]. apply Rnot_le_lt in Hgt.
      destruct (IH (S i) x i) as [[Ek Hall] | (j & y & Ek & Ey & Hy & Hall)].
      * right. exists 0%nat, x. repeat split.
        -- rewrite Ek. lia.
        -- exact Hgt.
        -- intros z [<- | Hz]; [lra | now apply Hall].
      * right. exists (S j), y. repeat split.
        -- rewrite Ek. lia.
        -- exact Ey.
        -- lra.
        -- intros z [<- | Hz]; [lra | now apply Hall].
Qed.

Lemma argmin_least (l : list R) :
  l <> [] ->
  exists k y, argmin (map Fin l) = Ok k /\ nth_error l k = Some y
              /\ forall x, In x l -> y <= x.
Proof.
  destruct l as [| m rest]; [congruence |]. intros _. cbn [map argmin is_nan].
  destruct (argmin_loop_least rest 1 m 0) as [[Ek Hall] | (j & y & Ek & Ey & Hy & Hall)].
  - exists 0%nat, m. rewrite Ek. repeat split.
    intros z [<- | Hz]; [lra | now apply Hall].
  - exists (S j), y. rewrite Ek. repeat split.
    + exact Ey.
    + intros z [<- | Hz]; [lra | now apply Hall].
Qed.

(** ** The sample size the script reports *)

Lemma gaps_finite (d p : R) :
  0 < p < 1 ->
  map (fun w => np_abs (np_sub w (Fin target_power))) (powers d p)
  = map Fin (map (gap d p) sample_sizes).
Proof.
  intros Hp. unfold powers. rewrite !map_map. apply map_ext_in.
  intros n Hn. apply sample_sizes_range in Hn.
  rewrite power_finite by (try assumption; lra). reflexivity.
Qed.

Lemma sample_sizes_nonempty : sample_sizes <> [].
Proof.
  intros E. pose proof sample_sizes_length as H. rewrite E in H. discriminate H.
Qed.

(** The script always reports a point of the grid. *)
Lemma sample_for_80_on_grid (d p : R) :
  exists k n, power_80_idx d p = Ok k /\ nth_error sample_sizes k = Some n
              /\ sample_for_80 d p = Ok n.
Proof.
  unfold sample_for_80, power_80_idx.
  destruct (argmin_bound
              (map (fun w => np_abs (np_sub w (Fin target_power))) (powers d p)))
    as (k & Ek & Hk).
  { intros E. apply (f_equal (@length _)) in E.
    unfold powers in E. rewrite !length_map, sample_sizes_length in E. discriminate E. }
  unfold powers in Hk. rewrite !length_map in Hk.
  destruct (nth_error sample_sizes k) as [n |] eqn:En.
  - exists k, n. rewrite Ek. cbn [bind]. unfold index. rewrite En. repeat split.
  - apply nth_error_None in En. lia.
Qed.

(** Off the degenerate pooled rates the reported point is one whose power is
    closest to the target. *)
Lemma sample_for_80_least_gap (d p : R) (k : nat) (n : R) :
  0 < p < 1 ->
  power_80_idx d p = Ok k -> nth_error sample_sizes k = Some n ->
  forall n', In n' sample_sizes -> gap d p n <= gap d p n'.
Proof.
  intros Hp Ek En n' Hn'.
  unfold power_80_idx in Ek. rewrite (gaps_finite d p Hp) in Ek.
  destruct (argmin_least (map (gap d p) sample_sizes)) as (k' & y & Ek' & Ey & Hall).
  { intros E. apply map_eq_nil in E. now apply sample_sizes_nonempty. }
  rewrite Ek in Ek'. injection Ek' as <-.
  rewrite nth_error_map, En in Ey. cbn in Ey. injection Ey as <-.
  apply Hall. now apply in_map.
Qed.

(** C9, as the code behaves.  The script always reports one of the 100 grid
    points, so a value between 1000 and 50000; when the pooled rate is
    strictly between 0 and 1 it is a grid point whose power is closest to
    0.8 among the grid points.  Nothing bounds the power there from below. *)
Theorem sample_for_80_is_closest_grid_point (d p : R) :
  exists n, sample_for_80 d p = Ok n
    /\ In n sample_sizes
    /\ 1000 <= n <= 50000
    /\ (0 < p < 1 ->
        forall n', In n' sample_sizes ->
          Rabs (power_formula d p n - target_power)
          <= Rabs (power_formula d p n' - target_power)).
Proof.
  destruct (sample_for_80_on_grid d p) as (k & n & Ek & En & Es).
  exists n. split; [exact Es |].
  assert (Hin : In n sample_sizes) by (eapply nth_error_In; exact En).
  split; [exact Hin |]. split; [now apply sample_sizes_range |].
  intros Hp n' Hn'. exact (sample_for_80_least_gap d p k n Hp Ek En n' Hn').
Qed.

Lemma sample_for_80_is_closest_grid_point_witness :
  0 < 54 / 1000 < 1 /\
  exists n, sample_for_80 (8 / 1000) (54 / 1000) = Ok n
    /\ In n sample_sizes
    /\ 1000 <= n <= 50000
    /\ (0 < 54 / 1000 < 1 ->
        forall n', In n' sample_sizes ->
          Rabs (power_formula (8 / 1000) (54 / 1000) n - target_power)
          <= Rabs (power_formula (8 / 1000) (54 / 1000) n' - target_power)).
Proof.
  split; [lra |].
  apply (sample_for_80_is_closest_grid_point (8 / 1000) (54 / 1000)).
Defined.

(** C9, refuted as stated: with both arms at 10000 visitors and 500
    conversions the reported sample size is on the grid, and the power there
    is at most 0.025, that is 0.775 below the target of 0.8. *)
Lemma sample_for_80_power_far_below_target :
  valid reference_control /\ valid equal_variant
  /\ exists r n w,
      compute_test_result reference_control equal_variant = Ok r
      /\ sample_for_80 (p_variant r - p_control r) (p_pooled r) = Ok n
      /\ power (p_variant r - p_control r) (p_pooled r) n = Fin w
      /\ w <= target_power - 775 / 1000.
Proof.
  assert (Hc : valid reference_control) by (valid_arm).
  assert (Hv : valid equal_variant) by (valid_arm).
  split; [exact Hc |]. split; [exact Hv |].
  destruct (compute_test_result_rates _ _ Hc Hv) as (r & Er & Ec & Evr & Ep).
  exists r. rewrite Ec, Evr, Ep.
  assert (Ed : rate equal_variant - rate reference_control = 0)
    by (unfold rate, equal_variant, reference_control; cbn [conversion_count visitor_count]; lra).
  assert (Hp : 0 < pooled reference_control equal_variant < 1)
    by (unfold pooled, equal_variant, reference_control;
        cbn [conversion_count visitor_count]; lra).
  rewrite Ed.
  destruct (sample_for_80_on_grid 0 (pooled reference_control equal_variant))
    as (k & n & _ & En & Es).
  exists n, (1 - Phi critical_z). split; [exact Er |]. split; [exact Es |].
  apply nth_error_In, sample_sizes_range in En.
  split; [apply power_at_zero_effect; [exact Hp | lra] |].
  pose proof upper_tail_at_critical_z. unfold target_power. lra.
Qed.

(** * The run of the script *)

Lemma andthen_print {B : Type} (l : console_line) (k : unit -> script B) (out : list event) :
  andthen (print l) k out = k tt (out ++ [Print l]).
Proof. reflexivity. Qed.

Lemma andthen_lift_ok {A B : Type} (a : A) (k : A -> script B) (out : list event) :
  andthen (lift (Ok a)) k out = k a out.
Proof. reflexivity. Qed.

Lemma andthen_lift_raise {A B : Type} (e : exn) (k : A -> script B) (out : list event) :
  andthen (lift (@Raise A e)) k out = (out, Raise e).
Proof. reflexivity. Qed.

Lemma andthen_assoc {A B C : Type} (m : script A) (f : A -> script B) (g : B -> script C)
      (out : list event) :
  andthen (andthen m f) g out = andthen m (fun a => andthen (f a) g) out.
Proof.
  unfold andthen. destruct (m out) as [out' [a | e]]; reflexivity.
Qed.

(** The run up to the division of line 43. *)
Lemma run_to_relative_lift (c v : Variant) (r : TestResult) :
  compute_test_result c v = Ok r ->
  (p_control r = 0 -> run c v = (summary_head r, Raise ZeroDivisionError))
  /\ (snd (run c v) = Ok tt -> p_control r <> 0).
Proof.
  intros Er. unfold run. rewrite Er, andthen_lift_ok.
  unfold console_summary.
  repeat (rewrite andthen_assoc, andthen_print). cbn [app].
  rewrite andthen_assoc. unfold py_float_truediv.
  destruct (Req_dec_T (p_control r) 0) as [E | N].
  - rewrite andthen_lift_raise. split; [reflexivity |].
    cbn [snd]. discriminate.
  - split; [contradiction | intros _; exact N].
Qed.

Lemma compute_test_result_p_control (c v : Variant) (r : TestResult) :
  compute_test_result c v = Ok r -> p_control r = rate c.
Proof.
  intros Er.
  destruct (compute_test_result_total_cases c v) as [[_ [E | E]] | [D _]].
  - rewrite E in Er. discriminate Er.
  - rewrite E in Er. discriminate Er.
  - rewrite (compute_test_result_unfold c v D) in Er.
    injection Er as <-. reflexivity.
Qed.

Lemma rate_zero_iff (a : Variant) :
  visitor_count a <> 0%Z -> (rate a = 0 <-> conversion_count a = 0%Z).
Proof.
  intros Hn. unfold rate. split.
  - intros H. apply eq_IZR.
    assert (Hv : IZR (visitor_count a) <> 0) by (intros E; apply eq_IZR in E; contradiction).
    apply (Rmult_eq_compat_r (IZR (visitor_count a))) in H.
    unfold Rdiv in H. rewrite Rmult_assoc, Rinv_l, Rmult_1_r, Rmult_0_l in H by exact Hv.
    exact H.
  - intros ->. unfold Rdiv. apply Rmult_0_l.
Qed.

Lemma summary_head_prints_only (r : TestResult) (e : event) :
  In e (summary_head r) -> is_chart e = false.
Proof.
  unfold summary_head. cbn [In]. intros H.
  repeat (destruct H as [<- | H]; [reflexivity |]). destruct H.
Qed.

(** C10.  On valid arms with no control conversion the control rate is 0,
    the division of line 43 raises [ZeroDivisionError], and the run ends
    there: six lines of the summary block are on the console (the rule, the
    title, the rule, the two rates and their difference), the relative lift,
    the standard error, the z statistic, the p-value and the verdict are not,
    and no chart is drawn or saved.  Conversely a run that completes had a
    control arm with at least one conversion. *)
Theorem run_requires_control_conversions (c v : Variant) :
  (valid c -> valid v -> conversion_count c = 0%Z ->
   exists r, compute_test_result c v = Ok r
     /\ run c v = (summary_head r, Raise ZeroDivisionError)
     /\ (forall e, In e (fst (run c v)) -> is_chart e = false))
  /\ (snd (run c v) = Ok tt -> conversion_count c <> 0%Z).
Proof.
  split.
  - intros Hc Hv H0.
    destruct (compute_test_result_rates c v Hc Hv) as (r & Er & Ec & _).
    destruct (valid_nonzero c v Hc Hv) as (N1 & _).
    assert (Ez : p_control r = 0) by (rewrite Ec; now apply rate_zero_iff).
    destruct (run_to_relative_lift c v r Er) as [Hrun _].
    specialize (Hrun Ez).
    exists r. split; [exact Er |]. split; [exact Hrun |].
    rewrite Hrun. cbn [fst]. apply summary_head_prints_only.
  - intros Hok H0.
    destruct (compute_test_result c v) as [r | e] eqn:Er.
    + destruct (run_to_relative_lift c v r Er) as [_ Hn].
      apply (Hn Hok). rewrite (compute_test_result_p_control c v r Er).
      unfold rate. rewrite H0. unfold Rdiv. apply Rmult_0_l.
    + unfold run in Hok. rewrite Er, andthen_lift_raise in Hok. discriminate Hok.
Qed.

Lemma run_requires_control_conversions_witness :
  (valid empty_control /\ valid small_variant /\ conversion_count empty_control = 0%Z)
  /\ exists r, compute_test_result empty_control small_variant = Ok r
     /\ run empty_control small_variant = (summary_head r, Raise ZeroDivisionError)
     /\ (forall e, In e (fst (run empty_control small_variant)) -> is_chart e = false).
Proof.
  assert (Hc : valid empty_control) by (valid_arm).
  assert (Hv : valid small_variant) by (valid_arm).
  split; [split; [exact Hc | split; [exact Hv | reflexivity]] |].
  apply (proj1 (run_requires_control_conversions empty_control small_variant) Hc Hv).
  reflexivity.
Defined.

(** ** In the model, nothing else stops the run *)

Lemma py_float_truediv_ok (x y : R) : y <> 0 -> py_float_truediv x y = Ok (x / y).
Proof.
  intros H. unfold py_float_truediv.
  destruct (Req_dec_T y 0) as [E | _]; [contradiction | reflexivity].
Qed.

Lemma py_float_int_truediv_ok (x : R) (n : Z) :
  n <> 0%Z -> py_float_int_truediv x n = Ok (x / IZR n).
Proof.
  intros H. unfold py_float_int_truediv. apply Z.eqb_neq in H. now rewrite H.
Qed.

Lemma ci_ok (x : R) (n : Z) : n <> 0%Z -> exists e, ci x n = Ok e.
Proof.
  intros H. unfold ci. rewrite py_float_int_truediv_ok by exact H.
  eexists. reflexivity.
Qed.

(** On valid arms with a control conversion every division of the script
    has a divisor other than zero and, in the model, the run reaches its
    last line.  The calls into the plotting library are taken to succeed,
    and the visitor counts to be within float range. *)
Lemma run_completes (c v : Variant) :
  valid c -> valid v -> conversion_count c <> 0%Z -> snd (run c v) = Ok tt.
Proof.
  intros Hc Hv Hcc.
  destruct (compute_test_result_rates c v Hc Hv) as (r & Er & Ec & _).
  destruct (valid_nonzero c v Hc Hv) as (N1 & N2 & _).
  assert (Hp : p_control r <> 0).
  { rewrite Ec. intros E. apply rate_zero_iff in E; [contradiction | exact N1]. }
  destruct (ci_ok (p_control r) (visitor_count c) N1) as [e1 E1].
  destruct (ci_ok (p_variant r) (visitor_count v) N2) as [e2 E2].
  destruct (sample_for_80_on_grid (p_variant r - p_control r) (p_pooled r))
    as (k & n & _ & _ & En).
  unfold run. rewrite Er, andthen_lift_ok.
  unfold console_summary, figure_breakdown, figure_explained.
  rewrite !(py_float_truediv_ok _ _ Hp), !(py_float_int_truediv_ok _ _ N1),
    !(py_float_int_truediv_ok _ _ N2), E1, E2, En.
  reflexivity.
Qed.

(** * The reference inputs: control=(10000,500), variant=(10000,580) *)

Lemma reference_rates :
  rate reference_control = 5 / 100 /\ rate reference_variant = 58 / 1000
  /\ pooled reference_control reference_variant = 54 / 1000
  /\ variance_term reference_control reference_variant = reference_variance.
Proof.
  unfold variance_term, pooled, rate, reference_control, reference_variant,
    reference_variance.
  cbn [conversion_count visitor_count]. repeat split; lra.
Qed.

Lemma sqrt_between (lo hi x : R) :
  0 <= lo -> 0 <= hi -> lo * lo < x < hi * hi -> lo < sqrt x < hi.
Proof.
  intros Hlo Hhi [H1 H2]. split.
  - rewrite <- (sqrt_square lo) by exact Hlo. apply sqrt_lt_1_alt. split; [nra | exact H1].
  - rewrite <- (sqrt_square hi) by exact Hhi. apply sqrt_lt_1_alt. split; [nra | exact H2].
Qed.

Lemma reference_se_bounds : 319637 / 100000000 < reference_se < 319638 / 100000000.
Proof.
  unfold reference_se, reference_variance. apply sqrt_between; lra.
Qed.

Lemma reference_z_bounds : 250283 / 100000 < reference_z < 250284 / 100000.
Proof.
  pose proof reference_se_bounds as [H1 H2]. unfold reference_z.
  set (s := reference_se) in *.
  assert (Hs : 0 < s) by lra.
  split.
  - apply Rmult_lt_reg_r with s; [exact Hs |].
    replace (8 / 1000 / s * s) with (8 / 1000) by (field; lra). lra.
  - apply Rmult_lt_reg_r with s; [exact Hs |].
    replace (8 / 1000 / s * s) with (8 / 1000) by (field; lra). lra.
Qed.

Lemma Phi_at_reference_z_lower : 993839 / 1000000 <= Phi (250283 / 100000).
Proof.
  rewrite <- (Q2R_ratio 250283 100000), <- (Q2R_ratio 993839 1000000).
  apply (Phi_lower_bound 9); apply Qle_bool_imp_le; vm_compute; reflexivity.
Qed.

Lemma Phi_at_reference_z_upper : Phi (250284 / 100000) <= 993841 / 1000000.
Proof.
  rewrite <- (Q2R_ratio 250284 100000), <- (Q2R_ratio 993841 1000000).
  apply (Phi_upper_bound 10); apply Qle_bool_imp_le; vm_compute; reflexivity.
Qed.

Lemma reference_p_bounds : 12318 / 1000000 <= reference_p <= 12322 / 1000000.
Proof.
  pose proof reference_z_bounds as [Hz1 Hz2].
  pose proof Phi_at_reference_z_lower as Hl.
  pose proof Phi_at_reference_z_upper as Hu.
  unfold reference_p. rewrite Rabs_right by lra.
  assert (Phi (250283 / 100000) <= Phi reference_z) by (apply Phi_increasing; lra).
  assert (Phi reference_z <= Phi (250284 / 100000)) by (apply Phi_increasing; lra).
  lra.
Qed.

(** The record the script computes on the reference inputs. *)
Lemma reference_result :
  compute_test_result reference_control reference_variant =
  Ok {| p_control := 5 / 100; p_variant := 58 / 1000; p_pooled := 54 / 1000;
        se := Fin reference_se; z_stat := Fin reference_z;
        p_value := Fin reference_p; significant := true |}.
Proof.
  destruct reference_valid as [Hc Hv].
  rewrite (compute_test_result_unfold _ _ (valid_defined _ _ Hc Hv)).
  destruct reference_rates as (E1 & E2 & E3 & E4).
  rewrite E1, E2, E3, E4.
  pose proof reference_se_bounds as [Hs _].
  rewrite np_sqrt_nonneg by (unfold reference_variance; lra).
  fold reference_se. rewrite np_div_fin by lra.
  replace (58 / 1000 - 5 / 100) with (8 / 1000) by lra.
  fold reference_z. rewrite p_value_of_z. fold reference_p.
  assert (Hsig : np_ltb (Fin reference_p) (Fin alpha) = true).
  { apply np_ltb_fin. pose proof reference_p_bounds. unfold alpha. lra. }
  rewrite Hsig. reflexivity.
Qed.

(** C4, as the code computes it.  On control=(10000,500) and
    variant=(10000,580) the control rate is 0.05, the variant rate 0.058 and
    the pooled rate 0.054 exactly; the standard error is 0.003196 to six
    decimals, the z statistic 2.503 to three decimals (2.5028 to four), the
    p-value 0.0123 to four decimals, and the verdict is true. *)
Theorem reference_scenario :
  exists r s z p,
    compute_test_result reference_control reference_variant = Ok r
    /\ p_control r = 5 / 100 /\ p_variant r = 58 / 1000 /\ p_pooled r = 54 / 1000
    /\ se r = Fin s /\ Rabs (s - 3196 / 1000000) <= 5 / 10000000
    /\ z_stat r = Fin z /\ Rabs (z - 2503 / 1000) <= 5 / 10000
    /\ Rabs (z - 25028 / 10000) <= 5 / 100000
    /\ p_value r = Fin p /\ Rabs (p - 123 / 10000) <= 5 / 100000
    /\ significant r = true.
Proof.
  rewrite reference_result.
  eexists; exists reference_se, reference_z, reference_p.
  split; [reflexivity |]. cbn [p_control p_variant p_pooled se z_stat p_value significant].
  pose proof reference_se_bounds. pose proof reference_z_bounds.
  pose proof reference_p_bounds.
  repeat split; try (apply Rabs_le; lra).
Qed.

(** C4, refuted as stated: the standard error differs from 0.003195 by more
    than one unit of its sixth decimal, and the z statistic differs from
    2.505 by more than two units of its third decimal. *)
Lemma reference_scenario_digits_differ :
  exists r s z,
    compute_test_result reference_control reference_variant = Ok r
    /\ se r = Fin s /\ 1 / 1000000 < Rabs (s - 3195 / 1000000)
    /\ z_stat r = Fin z /\ 2 / 1000 < Rabs (z - 2505 / 1000).
Proof.
  rewrite reference_result.
  eexists; exists reference_se, reference_z.
  split; [reflexivity |]. cbn [se z_stat].
  pose proof reference_se_bounds. pose proof reference_z_bounds.
  repeat split.
  - rewrite Rabs_right by lra. lra.
  - rewrite Rabs_left by lra. lra.
Qed.

(** * Further properties of the Z-test *)

(** Whatever the arms, a result that is returned carries the p-value of its
    z statistic and the verdict of its p-value. *)
Lemma compute_test_result_links (c v : Variant) (r : TestResult) :
  compute_test_result c v = Ok r ->
  p_control r = rate c /\ p_variant r = rate v /\ p_pooled r = pooled c v
  /\ p_value r = np_mul (Fin 2) (np_sub (Fin 1) (norm_cdf (np_abs (z_stat r))))
  /\ significant r = np_ltb (p_value r) (Fin alpha).
Proof.
  intros Er.
  destruct (compute_test_result_total_cases c v) as [[_ [E | E]] | [D _]].
  - rewrite E in Er. discriminate Er.
  - rewrite E in Er. discriminate Er.
  - rewrite (compute_test_result_unfold c v D) in Er.
    injection Er as <-. cbn. repeat split.
Qed.

Lemma p_value_of_finite_z (c v : Variant) (r : TestResult) (z : R) :
  compute_test_result c v = Ok r -> z_stat r = Fin z ->
  p_value r = Fin (2 * (1 - Phi (Rabs z)))
  /\ (significant r = true <-> 2 * (1 - Phi (Rabs z)) < alpha).
Proof.
  intros Er Ez.
  destruct (compute_test_result_links c v r Er) as (_ & _ & _ & Ep & Es).
  rewrite Ez, p_value_of_z in Ep. rewrite Es, Ep.
  split; [reflexivity | apply np_ltb_fin].
Qed.

Lemma Phi_abs_half (z : R) : 1 / 2 <= Phi (Rabs z).
Proof. rewrite <- Phi_0. apply Phi_increasing, Rabs_pos. Qed.

(** The weight of the variant arm in the pooled rate. *)
Lemma variant_weight_range (c v : Variant) :
  valid c -> valid v ->
  0 <= IZR (visitor_count v) / (IZR (visitor_count c) + IZR (visitor_count v)) <= 1.
Proof.
  intros Hc Hv.
  destruct (valid_reals c Hc) as [H1 _], (valid_reals v Hv) as [H2 _].
  apply div_unit_interval; lra.
Qed.

Lemma pooled_between_rates (c v : Variant) :
  valid c -> valid v ->
  Rmin (rate c) (rate v) <= pooled c v <= Rmax (rate c) (rate v).
Proof.
  intros Hc Hv. rewrite (pooled_as_mix c v Hc Hv).
  pose proof (variant_weight_range c v Hc Hv) as [W0 W1].
  set (w := IZR (visitor_count v) / (IZR (visitor_count c) + IZR (visitor_count v))) in *.
  set (a := rate c). set (b := rate v).
  unfold Rmin, Rmax. destruct (Rle_dec a b) as [Hab | Hab].
  - assert (0 <= w * (b - a) <= 1 * (b - a)).
    { split; [apply Rmult_le_pos; lra | apply Rmult_le_compat_r; lra]. }
    lra.
  - assert (0 <= w * (a - b) <= 1 * (a - b)).
    { split; [apply Rmult_le_pos; lra | apply Rmult_le_compat_r; lra]. }
    replace (w * (b - a)) with (- (w * (a - b))) by ring. lra.
Qed.

Lemma standard_error_zero_iff (c v : Variant) :
  valid c -> valid v ->
  (standard_error c v = 0 <-> pooled c v = 0 \/ pooled c v = 1).
Proof.
  intros Hc Hv. split.
  - intros E. pose proof (pooled_range c v Hc Hv) as [H0 H1].
    destruct (Req_dec_T (pooled c v) 0) as [E0 | N0]; [now left |].
    destruct (Req_dec_T (pooled c v) 1) as [E1 | N1]; [now right |].
    assert (Hp : 0 < pooled c v < 1) by lra.
    pose proof (standard_error_pos c v Hc Hv Hp). lra.
  - apply degenerate_standard_error.
Qed.

(** X1.  On valid arms the two rates lie in [0,1], the pooled rate lies
    between them, and the standard error is a number that is never
    negative and is 0 exactly when the pooled rate is 0 or 1. *)
Theorem test_result_invariants (c v : Variant) :
  valid c -> valid v ->
  exists r s, compute_test_result c v = Ok r
    /\ 0 <= p_control r <= 1 /\ 0 <= p_variant r <= 1
    /\ Rmin (p_control r) (p_variant r) <= p_pooled r <= Rmax (p_control r) (p_variant r)
    /\ se r = Fin s /\ 0 <= s
    /\ (s = 0 <-> p_pooled r = 0 \/ p_pooled r = 1).
Proof.
  intros Hc Hv. rewrite (compute_test_result_valid c v Hc Hv).
  eexists; exists (standard_error c v). split; [reflexivity |].
  cbn [p_control p_variant p_pooled se].
  split; [now apply rate_range |]. split; [now apply rate_range |].
  split; [now apply pooled_between_rates |]. split; [reflexivity |].
  split; [apply sqrt_pos | now apply standard_error_zero_iff].
Qed.

Lemma test_result_invariants_witness :
  (valid reference_control /\ valid reference_variant)
  /\ exists r s, compute_test_result reference_control reference_variant = Ok r
    /\ 0 <= p_control r <= 1 /\ 0 <= p_variant r <= 1
    /\ Rmin (p_control r) (p_variant r) <= p_pooled r <= Rmax (p_control r) (p_variant r)
    /\ se r = Fin s /\ 0 <= s
    /\ (s = 0 <-> p_pooled r = 0 \/ p_pooled r = 1).
Proof.
  split; [split; valid_arm |].
  apply (test_result_invariants reference_control reference_variant); valid_arm.
Defined.

(** ** The sign of the z statistic *)

(** The difference of the rates has the sign of the cross product of the
    counts. *)
Lemma rate_difference_cross (c v : Variant) :
  valid c -> valid v ->
  (rate v - rate c) * (IZR (visitor_count c) * IZR (visitor_count v))
  = IZR (conversion_count v * visitor_count c - conversion_count c * visitor_count v).
Proof.
  intros Hc Hv.
  destruct (valid_reals c Hc) as [H1 _], (valid_reals v Hv) as [H2 _].
  rewrite minus_IZR, !mult_IZR. unfold rate. field. split; lra.
Qed.

Lemma z_quotient_sign (c v : Variant) :
  valid c -> valid v -> 0 < pooled c v < 1 ->
  let z := (rate v - rate c) / standard_error c v in
  (0 < z <-> (conversion_count c * visitor_count v < conversion_count v * visitor_count c)%Z)
  /\ (z = 0 <-> (conversion_count c * visitor_count v = conversion_count v * visitor_count c)%Z)
  /\ (z < 0 <-> (conversion_count v * visitor_count c < conversion_count c * visitor_count v)%Z).
Proof.
  intros Hc Hv Hp z.
  pose proof (standard_error_pos c v Hc Hv Hp) as Hs.
  pose proof (rate_difference_cross c v Hc Hv) as Hx.
  destruct (valid_reals c Hc) as [H1 _], (valid_reals v Hv) as [H2 _].
  assert (Hn : 0 < IZR (visitor_count c) * IZR (visitor_count v))
    by (apply Rmult_lt_0_compat; assumption).
  set (D := rate v - rate c) in *. set (s := standard_error c v) in *.
  set (N := IZR (visitor_count c) * IZR (visitor_count v)) in *.
  set (X := (conversion_count v * visitor_count c - conversion_count c * visitor_count v)%Z) in *.
  assert (Hz : z * s = D) by (unfold z; field; lra).
  assert (Pz : 0 < z <-> 0 < D) by (split; intros; nra).
  assert (Nz : z < 0 <-> D < 0) by (split; intros; nra).
  assert (Zz : z = 0 <-> D = 0) by (split; intros; nra).
  assert (PD : 0 < D <-> (0 < X)%Z).
  { split; intros H.
    - apply lt_IZR. rewrite <- Hx. nra.
    - apply IZR_lt in H. rewrite <- Hx in H. nra. }
  assert (ND : D < 0 <-> (X < 0)%Z).
  { split; intros H.
    - apply lt_IZR. rewrite <- Hx. nra.
    - apply IZR_lt in H. rewrite <- Hx in H. nra. }
  assert (ZD : D = 0 <-> X = 0%Z).
  { split; intros H.
    - apply eq_IZR. rewrite <- Hx. rewrite H. ring.
    - apply (f_equal IZR) in H. rewrite <- Hx in H. nra. }
  unfold X in *. repeat split; intros H.
  - apply Pz, PD in H. lia.
  - apply Pz, PD. lia.
  - apply Zz, ZD in H. lia.
  - apply Zz, ZD. lia.
  - apply Nz, ND in H. lia.
  - apply Nz, ND. lia.
Qed.

Lemma z_stat_finite (c v : Variant) :
  valid c -> valid v -> 0 < pooled c v < 1 ->
  exists r, compute_test_result c v = Ok r
    /\ z_stat r = Fin ((rate v - rate c) / standard_error c v).
Proof.
  intros Hc Hv Hp.
  destruct (z_stat_cases c v Hc Hv) as (r & Er & [[_ Ez] | [[E | E] _]]).
  - exists r. split; assumption.
  - lra.
  - lra.
Qed.

(** X2.  On valid arms whose pooled rate is strictly between 0 and 1 the
    z statistic is a number whose sign is that of the difference of the
    rates, read off the integer counts: it is positive exactly when
    [control_conversions * variant_visitors < variant_conversions *
    control_visitors], zero exactly when the two products are equal, and
    negative exactly when the inequality is reversed. *)
Theorem z_stat_sign (c v : Variant) :
  valid c -> valid v -> 0 < pooled c v < 1 ->
  exists r z, compute_test_result c v = Ok r /\ z_stat r = Fin z
    /\ (0 < z <-> (conversion_count c * visitor_count v
                   < conversion_count v * visitor_count c)%Z)
    /\ (z = 0 <-> (conversion_count c * visitor_count v
                   = conversion_count v * visitor_count c)%Z)
    /\ (z < 0 <-> (conversion_count v * visitor_count c
                   < conversion_count c * visitor_count v)%Z).
Proof.
  intros Hc Hv Hp.
  destruct (z_stat_finite c v Hc Hv Hp) as (r & Er & Ez).
  exists r, ((rate v - rate c) / standard_error c v).
  split; [exact Er |]. split; [exact Ez |].
  exact (z_quotient_sign c v Hc Hv Hp).
Qed.

Lemma reference_pooled_inside : 0 < pooled reference_control reference_variant < 1.
Proof.
  destruct reference_rates as (_ & _ & E & _). rewrite E. lra.
Qed.

Lemma z_stat_sign_witness :
  (valid reference_control /\ valid reference_variant
   /\ 0 < pooled reference_control reference_variant < 1)
  /\ exists r z, compute_test_result reference_control reference_variant = Ok r
    /\ z_stat r = Fin z
    /\ (0 < z <-> (conversion_count reference_control * visitor_count reference_variant
                   < conversion_count reference_variant * visitor_count reference_control)%Z)
    /\ (z = 0 <-> (conversion_count reference_control * visitor_count reference_variant
                   = conversion_count reference_variant * visitor_count reference_control)%Z)
    /\ (z < 0 <-> (conversion_count reference_variant * visitor_count reference_control
                   < conversion_count reference_control * visitor_count reference_variant)%Z).
Proof.
  split; [split; [valid_arm | split; [valid_arm | exact reference_pooled_inside]] |].
  apply (z_stat_sign reference_control reference_variant);
    [valid_arm | valid_arm | exact reference_pooled_inside].
Defined.

(** ** Equal rates *)

Lemma equal_rates_pooled (c v : Variant) :
  valid c -> valid v -> rate v = rate c -> pooled c v = rate c.
Proof.
  intros Hc Hv E. pose proof (pooled_between_rates c v Hc Hv) as H.
  rewrite E in H. unfold Rmin, Rmax in H.
  destruct (Rle_dec (rate c) (rate c)); lra.
Qed.

Lemma cross_equal_rates (c v : Variant) :
  valid c -> valid v ->
  (conversion_count c * visitor_count v = conversion_count v * visitor_count c)%Z ->
  rate v = rate c.
Proof.
  intros Hc Hv E. pose proof (rate_difference_cross c v Hc Hv) as Hx.
  destruct (valid_reals c Hc) as [H1 _], (valid_reals v Hv) as [H2 _].
  replace (conversion_count v * visitor_count c - conversion_count c * visitor_count v)%Z
    with 0%Z in Hx by lia.
  assert (0 < IZR (visitor_count c) * IZR (visitor_count v))
    by (apply Rmult_lt_0_compat; assumption).
  nra.
Qed.

Lemma rate_inside (a : Variant) :
  valid a -> (0 < conversion_count a < visitor_count a)%Z -> 0 < rate a < 1.
Proof.
  intros Ha [H0 H1]. destruct (valid_reals a Ha) as [Hn _].
  apply IZR_lt in H0, H1. unfold rate. split.
  - apply Rdiv_lt_0_compat; assumption.
  - apply Rmult_lt_reg_r with (IZR (visitor_count a)); [exact Hn |].
    unfold Rdiv. rewrite Rmult_assoc, Rinv_l by lra. lra.
Qed.

(** X3.  When the two valid arms convert at exactly the same rate, one
    that is neither 0 nor 1, the z statistic is 0, the p-value is 1 and the
    verdict is false. *)
Theorem equal_rates_give_p_value_one (c v : Variant) :
  valid c -> valid v ->
  (conversion_count c * visitor_count v = conversion_count v * visitor_count c)%Z ->
  (0 < conversion_count c < visitor_count c)%Z ->
  exists r, compute_test_result c v = Ok r
    /\ z_stat r = Fin 0 /\ p_value r = Fin 1 /\ significant r = false.
Proof.
  intros Hc Hv Hx Hin.
  pose proof (cross_equal_rates c v Hc Hv Hx) as Er.
  pose proof (rate_inside c Hc Hin) as Ha.
  assert (Hp : 0 < pooled c v < 1) by (rewrite (equal_rates_pooled c v Hc Hv Er); exact Ha).
  pose proof (standard_error_pos c v Hc Hv Hp) as Hs.
  rewrite (compute_test_result_valid c v Hc Hv).
  eexists; split; [reflexivity |]. cbn [z_stat p_value significant].
  rewrite np_div_fin by lra. rewrite Er.
  replace ((rate c - rate c) / standard_error c v) with 0 by (field; lra).
  rewrite p_value_of_z, Rabs_R0, Phi_0.
  replace (2 * (1 - 1 / 2)) with 1 by field.
  repeat split.
  unfold np_ltb, alpha. destruct (Rlt_dec 1 (5 / 100)) as [H | _]; [lra | reflexivity].
Qed.

Lemma equal_rates_give_p_value_one_witness :
  (valid reference_control /\ valid equal_variant)
  /\ exists r, compute_test_result reference_control equal_variant = Ok r
    /\ z_stat r = Fin 0 /\ p_value r = Fin 1 /\ significant r = false.
Proof.
  split; [split; valid_arm |].
  apply (equal_rates_give_p_value_one reference_control equal_variant);
    try valid_arm; cbn; lia.
Defined.

(** ** Swapping the arms *)

Lemma np_div_opp (a b : R) :
  np_div (Fin (- a)) (Fin b) = np_neg (np_div (Fin a) (Fin b)).
Proof.
  unfold np_div. destruct (Req_dec_T b 0) as [Eb | Nb].
  - destruct (Req_dec_T a 0) as [Ea | Na], (Req_dec_T (- a) 0) as [Ea' | Na'];
      try reflexivity; try lra.
    unfold Rpositive.
    destruct (Rlt_dec 0 a), (Rlt_dec 0 (- a)); try reflexivity; lra.
  - cbn [np_neg]. f_equal. field. exact Nb.
Qed.

Lemma np_abs_neg (z : npfloat) : np_abs (np_neg z) = np_abs z.
Proof. destruct z; cbn; try reflexivity. now rewrite Rabs_Ropp. Qed.

Lemma standard_error_swap (c v : Variant) : standard_error v c = standard_error c v.
Proof.
  unfold standard_error, variance_term, pooled. f_equal.
  rewrite (Rplus_comm (IZR (conversion_count v))), (Rplus_comm (IZR (visitor_count v))).
  ring.
Qed.

Lemma pooled_swap (c v : Variant) : pooled v c = pooled c v.
Proof.
  unfold pooled.
  now rewrite (Rplus_comm (IZR (conversion_count v))), (Rplus_comm (IZR (visitor_count v))).
Qed.

(** X4.  Exchanging the two valid arms exchanges the two rates, keeps the
    pooled rate and the standard error, negates the z statistic, and keeps
    the p-value and the verdict: the test is two-tailed. *)
Theorem swapping_arms_negates_z (c v : Variant) :
  valid c -> valid v ->
  exists r r', compute_test_result c v = Ok r /\ compute_test_result v c = Ok r'
    /\ p_control r' = p_variant r /\ p_variant r' = p_control r
    /\ p_pooled r' = p_pooled r /\ se r' = se r
    /\ z_stat r' = np_neg (z_stat r)
    /\ p_value r' = p_value r /\ significant r' = significant r.
Proof.
  intros Hc Hv.
  rewrite (compute_test_result_valid c v Hc Hv), (compute_test_result_valid v c Hv Hc).
  eexists; eexists; split; [reflexivity |]. split; [reflexivity |].
  cbn [p_control p_variant p_pooled se z_stat p_value significant].
  rewrite (standard_error_swap c v), (pooled_swap c v).
  replace (rate c - rate v) with (- (rate v - rate c)) by ring.
  rewrite np_div_opp, np_abs_neg. repeat split.
Qed.

Lemma swapping_arms_negates_z_witness :
  (valid reference_control /\ valid reference_variant)
  /\ exists r r',
      compute_test_result reference_control reference_variant = Ok r
      /\ compute_test_result reference_variant reference_control = Ok r'
      /\ p_control r' = p_variant r /\ p_variant r' = p_control r
      /\ p_pooled r' = p_pooled r /\ se r' = se r
      /\ z_stat r' = np_neg (z_stat r)
      /\ p_value r' = p_value r /\ significant r' = significant r.
Proof.
  split; [split; valid_arm |].
  apply (swapping_arms_negates_z reference_control reference_variant); valid_arm.
Defined.

(** ** The p-value against the size of the z statistic *)

(** The result on two arms of 10000 visitors and 500 conversions each. *)
Lemma no_effect_result :
  compute_test_result reference_control equal_variant = Ok no_effect_outcome.
Proof.
  assert (Hc : valid reference_control) by valid_arm.
  assert (Hv : valid equal_variant) by valid_arm.
  rewrite (compute_test_result_valid _ _ Hc Hv). cbv zeta.
  assert (Ec : rate reference_control = 5 / 100) by (unfold rate; cbn; lra).
  assert (Ev : rate equal_variant = 5 / 100) by (unfold rate; cbn; lra).
  assert (Ep : pooled reference_control equal_variant = 5 / 100)
    by (unfold pooled; cbn; lra).
  assert (Es : standard_error reference_control equal_variant = sqrt (95 / 10000000)).
  { unfold standard_error, variance_term. rewrite Ep. cbn. f_equal. lra. }
  assert (Hs : 0 < sqrt (95 / 10000000)) by (apply sqrt_lt_R0; lra).
  rewrite Ec, Ev, Ep, Es. rewrite np_div_fin by lra.
  replace ((5 / 100 - 5 / 100) / sqrt (95 / 10000000)) with 0 by (field; lra).
  rewrite p_value_of_z, Rabs_R0, Phi_0.
  replace (2 * (1 - 1 / 2)) with 1 by field.
  assert (Hn : np_ltb (Fin 1) (Fin alpha) = false).
  { unfold np_ltb, alpha. destruct (Rlt_dec 1 (5 / 100)) as [H | _]; [lra | reflexivity]. }
  rewrite Hn. reflexivity.
Qed.

Lemma reference_z_beyond_critical : critical_z <= Rabs reference_z.
Proof.
  pose proof reference_z_bounds as [H _]. unfold critical_z.
  rewrite Rabs_right by lra. lra.
Qed.

(** X5.  Among the results the script returns with a number for the
    z statistic, the p-value is a number that never exceeds 1, a z statistic
    at least as large in absolute value never has a larger p-value, and it
    is significant whenever the other one is. *)
Theorem larger_z_smaller_p_value (c1 v1 c2 v2 : Variant) (r1 r2 : TestResult) (z1 z2 : R) :
  compute_test_result c1 v1 = Ok r1 -> compute_test_result c2 v2 = Ok r2 ->
  z_stat r1 = Fin z1 -> z_stat r2 = Fin z2 -> Rabs z1 <= Rabs z2 ->
  exists p1 p2, p_value r1 = Fin p1 /\ p_value r2 = Fin p2
    /\ p2 <= p1 /\ p1 <= 1
    /\ (significant r1 = true -> significant r2 = true).
Proof.
  intros E1 E2 Z1 Z2 Hz.
  destruct (p_value_of_finite_z c1 v1 r1 z1 E1 Z1) as [P1 S1].
  destruct (p_value_of_finite_z c2 v2 r2 z2 E2 Z2) as [P2 S2].
  pose proof (Phi_increasing _ _ Hz) as Hphi.
  pose proof (Phi_abs_half z1) as Hhalf.
  eexists; eexists; split; [exact P1 |]. split; [exact P2 |].
  split; [lra |]. split; [lra |].
  intros H. apply S2. apply S1 in H. lra.
Qed.

Lemma larger_z_smaller_p_value_witness :
  (Rabs 0 <= Rabs reference_z /\ 0 < reference_z)
  /\ exists p1 p2,
       p_value no_effect_outcome = Fin p1 /\ p_value reference_outcome = Fin p2
       /\ p2 <= p1 /\ p1 <= 1
       /\ (significant no_effect_outcome = true -> significant reference_outcome = true).
Proof.
  assert (Hz : Rabs 0 <= Rabs reference_z) by (rewrite Rabs_R0; apply Rabs_pos).
  split.
  - split; [exact Hz |]. pose proof reference_z_bounds. lra.
  - exact (larger_z_smaller_p_value reference_control equal_variant
             reference_control reference_variant
             no_effect_outcome reference_outcome 0 reference_z
             no_effect_result reference_result eq_refl eq_refl Hz).
Defined.

(** ** The verdict against the rejection region of the charts *)

Lemma Phi_above_at_critical_z : 975001 / 1000000 <= Phi (196 / 100).
Proof.
  rewrite <- (Q2R_ratio 196 100), <- (Q2R_ratio 975001 1000000).
  apply (Phi_lower_bound 7); apply Qle_bool_imp_le; vm_compute; reflexivity.
Qed.

Lemma Phi_below_under_critical_z : Phi (19599 / 10000) <= 974999 / 1000000.
Proof.
  rewrite <- (Q2R_ratio 19599 10000), <- (Q2R_ratio 974999 1000000).
  apply (Phi_upper_bound 8); apply Qle_bool_imp_le; vm_compute; reflexivity.
Qed.

(** X6.  The verdict [p_value < 0.05] of line 47 against the rejection
    region the charts draw at [critical_z = 1.96] (lines 89-93): a result
    whose z statistic is a number of absolute value at least 1.96, in the
    drawn region, is always significant, and one of absolute value at most
    1.9599 never is.  Between 1.9599 and 1.96 nothing is claimed: the
    verdict's own threshold lies there, below the drawn one. *)
Theorem verdict_matches_rejection_region (c v : Variant) (r : TestResult) (z : R) :
  compute_test_result c v = Ok r -> z_stat r = Fin z ->
  (critical_z <= Rabs z -> significant r = true)
  /\ (Rabs z <= 19599 / 10000 -> significant r = false).
Proof.
  intros Er Ez.
  destruct (p_value_of_finite_z c v r z Er Ez) as [_ Hs].
  unfold alpha, critical_z in *. split; intros Hz.
  - apply Hs. pose proof (Phi_increasing _ _ Hz). pose proof Phi_above_at_critical_z. lra.
  - destruct (significant r); [| reflexivity].
    assert (H : 2 * (1 - Phi (Rabs z)) < 5 / 100) by now apply Hs.
    pose proof (Phi_increasing _ _ Hz). pose proof Phi_below_under_critical_z. lra.
Qed.

Lemma verdict_matches_rejection_region_witness :
  (critical_z <= Rabs reference_z /\ significant reference_outcome = true)
  /\ (Rabs 0 <= 19599 / 10000 /\ significant no_effect_outcome = false).
Proof.
  assert (H1 : critical_z <= Rabs reference_z) by exact reference_z_beyond_critical.
  assert (H2 : Rabs 0 <= 19599 / 10000) by (rewrite Rabs_R0; lra).
  split.
  - split; [exact H1 |].
    exact (proj1 (verdict_matches_rejection_region reference_control reference_variant
                    reference_outcome reference_z reference_result eq_refl) H1).
  - split; [exact H2 |].
    exact (proj2 (verdict_matches_rejection_region reference_control equal_variant
                    no_effect_outcome 0 no_effect_result eq_refl) H2).
Defined.

(** * The run of the script on integers within float range *)

Lemma run_precondition_dec (c v : Variant) :
  {run_precondition c v} + {~ run_precondition c v}.
Proof.
  unfold run_precondition.
  destruct (Z.eq_dec (visitor_count c) 0); [right; tauto |].
  destruct (Z.eq_dec (visitor_count v) 0); [right; tauto |].
  destruct (Z.eq_dec (visitor_count c + visitor_count v) 0); [right; tauto |].
  destruct (Z.eq_dec (conversion_count c) 0); [right; tauto |].
  left. tauto.
Qed.

(** Under the precondition the run writes the whole output. *)
Lemma run_complete_output (c v : Variant) :
  conversions_in_float_range c v ->
  run_precondition c v ->
  exists r n80,
    compute_test_result c v = Ok r
    /\ sample_for_80 (p_variant r - p_control r) (p_pooled r) = Ok n80
    /\ run c v
       = (complete_output r ((p_variant r - p_control r) / p_control r) n80, Ok tt).
Proof.
  intros HR (N1 & N2 & N3 & N4).
  destruct (compute_test_result_in_range_cases c v HR) as [[Hz _] | [_ [r Er]]]; [tauto |].
  destruct (compute_test_result_links c v r Er) as (Ec & _ & _ & _ & Es).
  assert (Hp : p_control r <> 0).
  { rewrite Ec. intros E. apply rate_zero_iff in E; [contradiction | exact N1]. }
  destruct (ci_ok (p_control r) (visitor_count c) N1) as [e1 E1].
  destruct (ci_ok (p_variant r) (visitor_count v) N2) as [e2 E2].
  destruct (sample_for_80_on_grid (p_variant r - p_control r) (p_pooled r))
    as (k & n & _ & _ & En).
  exists r, n. split; [exact Er |]. split; [exact En |].
  unfold run. rewrite Er, andthen_lift_ok.
  unfold console_summary, figure_breakdown, figure_explained.
  rewrite !(py_float_truediv_ok _ _ Hp), !(py_float_int_truediv_ok _ _ N1),
    !(py_float_int_truediv_ok _ _ N2), E1, E2, En.
  unfold complete_output, summary_head. rewrite Es. reflexivity.
Qed.

(** Off the precondition a Python division raises before any chart. *)
Lemma run_raises_early (c v : Variant) :
  conversions_in_float_range c v ->
  ~ run_precondition c v ->
  run c v = ([], Raise ZeroDivisionError)
  \/ exists r, compute_test_result c v = Ok r
               /\ run c v = (summary_head r, Raise ZeroDivisionError).
Proof.
  intros HR Hn.
  destruct (compute_test_result_in_range_cases c v HR) as [[_ E] | [D [r Er]]].
  2: apply divisions_defined_nonzero in D; destruct D as (N1 & N2 & N3).
  - left. unfold run. rewrite E, andthen_lift_raise. reflexivity.
  - right. exists r. split; [exact Er |].
    destruct (run_to_relative_lift c v r Er) as [Hrun _]. apply Hrun.
    rewrite (compute_test_result_p_control c v r Er). apply rate_zero_iff; [exact N1 |].
    destruct (Z.eq_dec (conversion_count c) 0) as [E | N]; [exact E |].
    exfalso. apply Hn. unfold run_precondition. tauto.
Qed.

Lemma saved_files_complete_output (r : TestResult) (l n : R) :
  saved_files (complete_output r l n)
  = ["ab_test_statistical_breakdown.png"; "ab_test_explained.png"]%string.
Proof. reflexivity. Qed.

(** X7.  On four integers below [2^500] in absolute value, where a Python
    float neither overflows nor rounds a quotient of counts to 0, and with
    the plotting calls taken to succeed, the run either completes or raises
    [ZeroDivisionError], and it completes exactly when no visitor count is 0,
    the visitor counts do not add up to 0 and the control arm has a
    conversion.  A run that completes has written the twelve summary lines,
    then the first figure and its file, then the second figure and its file,
    then the closing lines; a run that raises has drawn no chart and saved no
    file. *)
Theorem run_all_or_nothing (c v : Variant) :
  moderate c -> moderate v ->
  (run_precondition c v ->
   exists r n80,
     compute_test_result c v = Ok r
     /\ sample_for_80 (p_variant r - p_control r) (p_pooled r) = Ok n80
     /\ run c v
        = (complete_output r ((p_variant r - p_control r) / p_control r) n80, Ok tt)
     /\ saved_files (fst (run c v))
        = ["ab_test_statistical_breakdown.png"; "ab_test_explained.png"]%string)
  /\ (~ run_precondition c v ->
      snd (run c v) = Raise ZeroDivisionError
      /\ saved_files (fst (run c v)) = []
      /\ forall e, In e (fst (run c v)) -> is_chart e = false)
  /\ (snd (run c v) = Ok tt <-> run_precondition c v).
Proof.
  intros Mc Mv. pose proof (moderate_in_float_range c v Mc Mv) as HR.
  assert (Hyes : run_precondition c v ->
                 exists r n80,
                   compute_test_result c v = Ok r
                   /\ sample_for_80 (p_variant r - p_control r) (p_pooled r) = Ok n80
                   /\ run c v
                      = (complete_output r ((p_variant r - p_control r) / p_control r) n80,
                         Ok tt)
                   /\ saved_files (fst (run c v))
                      = ["ab_test_statistical_breakdown.png"; "ab_test_explained.png"]%string).
  { intros Hp. destruct (run_complete_output c v HR Hp) as (r & n & Er & En & Erun).
    exists r, n. repeat split; try assumption.
    rewrite Erun. cbn [fst]. apply saved_files_complete_output. }
  assert (Hno : ~ run_precondition c v ->
                snd (run c v) = Raise ZeroDivisionError
                /\ saved_files (fst (run c v)) = []
                /\ forall e, In e (fst (run c v)) -> is_chart e = false).
  { intros Hn. destruct (run_raises_early c v HR Hn) as [E | (r & _ & E)];
      rewrite E; cbn [fst snd].
    - repeat split. intros e [].
    - repeat split. apply summary_head_prints_only. }
  split; [exact Hyes |]. split; [exact Hno |].
  split.
  - intros Hok. destruct (run_precondition_dec c v) as [Hp | Hn]; [exact Hp |].
    destruct (Hno Hn) as [E _]. rewrite E in Hok. discriminate Hok.
  - intros Hp. destruct (Hyes Hp) as (r & n & _ & _ & E & _). rewrite E. reflexivity.
Qed.

Lemma run_all_or_nothing_witness :
  (moderate reference_control /\ moderate reference_variant
   /\ run_precondition reference_control reference_variant)
  /\ (exists r n80,
        compute_test_result reference_control reference_variant = Ok r
        /\ sample_for_80 (p_variant r - p_control r) (p_pooled r) = Ok n80
        /\ run reference_control reference_variant
           = (complete_output r ((p_variant r - p_control r) / p_control r) n80, Ok tt)
        /\ saved_files (fst (run reference_control reference_variant))
           = ["ab_test_statistical_breakdown.png"; "ab_test_explained.png"]%string)
  /\ (moderate no_visitors /\ moderate small_variant
      /\ ~ run_precondition no_visitors small_variant)
  /\ snd (run no_visitors small_variant) = Raise ZeroDivisionError
  /\ saved_files (fst (run no_visitors small_variant)) = [].
Proof.
  assert (Mc : moderate reference_control) by (split; vm_compute; reflexivity).
  assert (Mv : moderate reference_variant) by (split; vm_compute; reflexivity).
  assert (H : run_precondition reference_control reference_variant)
    by (unfold run_precondition; cbn; lia).
  assert (Mn : moderate no_visitors) by (split; vm_compute; reflexivity).
  assert (Ms : moderate small_variant) by (split; vm_compute; reflexivity).
  assert (Hn : ~ run_precondition no_visitors small_variant)
    by (unfold run_precondition; cbn; lia).
  split; [exact (conj Mc (conj Mv H)) |].
  split; [exact (proj1 (run_all_or_nothing reference_control reference_variant Mc Mv) H) |].
  split; [exact (conj Mn (conj Ms Hn)) |].
  destruct (proj1 (proj2 (run_all_or_nothing no_visitors small_variant Mn Ms)) Hn)
    as (E1 & E2 & _).
  exact (conj E1 E2).
Defined.

(** * Further properties of the power curve *)

(** X8.  On valid arms with the same number of visitors and a pooled rate
    strictly between 0 and 1, the power the loop of lines 221-228 computes at
    the current sample size (the line drawn at [control_visitors], line 233)
    is [1 - Phi (1.96 - z)] for the z statistic [z] of the test. *)
Theorem power_at_current_sample_size (c v : Variant) :
  valid c -> valid v -> visitor_count c = visitor_count v -> 0 < pooled c v < 1 ->
  exists r z, compute_test_result c v = Ok r /\ z_stat r = Fin z
    /\ power (p_variant r - p_control r) (p_pooled r) (IZR (visitor_count c))
       = Fin (1 - Phi (critical_z - z)).
Proof.
  intros Hc Hv Hn Hp.
  destruct (z_stat_finite c v Hc Hv Hp) as (r & Er & Ez).
  destruct (compute_test_result_links c v r Er) as (Ec & Evr & Epp & _).
  exists r, ((rate v - rate c) / standard_error c v).
  split; [exact Er |]. split; [exact Ez |].
  destruct (valid_reals c Hc) as [Hpos _].
  rewrite Ec, Evr, Epp, power_finite by assumption.
  unfold power_formula, standard_error, variance_term. rewrite <- Hn.
  replace (1 / IZR (visitor_count c) + 1 / IZR (visitor_count c))
    with (2 / IZR (visitor_count c)) by (field; lra).
  reflexivity.
Qed.

Lemma power_at_current_sample_size_witness :
  (valid reference_control /\ valid reference_variant
   /\ visitor_count reference_control = visitor_count reference_variant
   /\ 0 < pooled reference_control reference_variant < 1)
  /\ exists r z, compute_test_result reference_control reference_variant = Ok r
    /\ z_stat r = Fin z
    /\ power (p_variant r - p_control r) (p_pooled r) (IZR (visitor_count reference_control))
       = Fin (1 - Phi (critical_z - z)).
Proof.
  split; [split; [valid_arm | split; [valid_arm | split;
    [reflexivity | exact reference_pooled_inside]]] |].
  apply (power_at_current_sample_size reference_control reference_variant);
    [valid_arm | valid_arm | reflexivity | exact reference_pooled_inside].
Defined.

(** X9.  When the pooled rate is strictly between 0 and 1 and the grid
    brackets the target (one grid point has power at most 0.8, another at
    least 0.8), the power at the reported sample size lies between the
    powers at those two points. *)
Theorem sample_for_80_between_brackets (d p a b : R) :
  0 < p < 1 -> In a sample_sizes -> In b sample_sizes ->
  power_formula d p a <= target_power <= power_formula d p b ->
  exists n, sample_for_80 d p = Ok n /\ In n sample_sizes
    /\ power_formula d p a <= power_formula d p n <= power_formula d p b.
Proof.
  intros Hp Ha Hb [Hlo Hhi].
  destruct (sample_for_80_on_grid d p) as (k & n & Ek & En & Es).
  exists n. split; [exact Es |]. split; [eapply nth_error_In; exact En |].
  pose proof (sample_for_80_least_gap d p k n Hp Ek En a Ha) as Ga.
  pose proof (sample_for_80_least_gap d p k n Hp Ek En b Hb) as Gb.
  unfold gap in Ga, Gb.
  rewrite (Rabs_left1 (power_formula d p a - target_power)) in Ga by lra.
  rewrite (Rabs_right (power_formula d p b - target_power)) in Gb by lra.
  unfold Rabs in Ga, Gb.
  destruct (Rcase_abs (power_formula d p n - target_power)); lra.
Qed.

(** The distribution function is symmetric about 0. *)
Lemma norm_pdf_even (x : R) : norm_pdf (- x) = norm_pdf x.
Proof. unfold norm_pdf. now replace (- x * - x) with (x * x) by ring. Qed.

Lemma Phi_mirror_deriv (x : R) :
  derivable_pt_lim (fun y => Phi y + Phi (- y)) x 0.
Proof.
  replace 0 with (norm_pdf x + norm_pdf (- x) * -1)
    by (rewrite norm_pdf_even; ring).
  apply (derivable_pt_lim_plus Phi (fun y => Phi (- y))).
  - apply Phi_derivable_pt_lim.
  - apply (derivable_pt_lim_comp (fun y => - y) Phi).
    + replace (-1) with (Ropp 1) by ring.
      apply (derivable_pt_lim_opp id), derivable_pt_lim_id.
    + apply Phi_derivable_pt_lim.
Qed.

Lemma Phi_opp (x : R) : Phi (- x) = 1 - Phi x.
Proof.
  assert (D : derivable (fun y => Phi y + Phi (- y))).
  { intros y. exists 0. apply Phi_mirror_deriv. }
  assert (C : constant (fun y => Phi y + Phi (- y))).
  { apply (null_derivative_1 _ D). intros y.
    apply derive_pt_eq_0, Phi_mirror_deriv. }
  specialize (C x 0). cbn beta in C. rewrite Ropp_0, Phi_0 in C. lra.
Qed.

Lemma Phi_far_left (x : R) : x <= - critical_z -> Phi x <= 25 / 1000.
Proof.
  intros Hx. pose proof (Phi_increasing _ _ Hx) as H.
  rewrite Phi_opp in H. pose proof upper_tail_at_critical_z. lra.
Qed.

Lemma sample_for_80_between_brackets_witness :
  (0 < 54 / 1000 < 1 /\ In 1000 sample_sizes /\ In 50000 sample_sizes
   /\ power_formula (8 / 1000) (54 / 1000) 1000 <= target_power
       <= power_formula (8 / 1000) (54 / 1000) 50000)
  /\ exists n, sample_for_80 (8 / 1000) (54 / 1000) = Ok n /\ In n sample_sizes
    /\ power_formula (8 / 1000) (54 / 1000) 1000
        <= power_formula (8 / 1000) (54 / 1000) n
        <= power_formula (8 / 1000) (54 / 1000) 50000.
Proof.
  assert (H1 : In 1000 sample_sizes).
  { unfold sample_sizes, linspace. apply in_map_iff. exists 0%nat. split.
    - cbn [INR]. ring.
    - apply in_seq. lia. }
  assert (H2 : In 50000 sample_sizes).
  { unfold sample_sizes, linspace. apply in_map_iff. exists 99%nat. split.
    - replace (INR (100 - 1)) with 99 by (rewrite INR_IZR_INZ; reflexivity).
      replace (INR 99) with 99 by (rewrite INR_IZR_INZ; reflexivity).
      field.
    - apply in_seq. lia. }
  assert (Hlo : power_formula (8 / 1000) (54 / 1000) 1000 <= target_power).
  { unfold power_formula, target_power, critical_z.
    assert (Hs : 41 / 10000 < sqrt (54 / 1000 * (1 - 54 / 1000) * (2 / 1000)) < 1)
      by (apply sqrt_between; lra).
    set (s := sqrt (54 / 1000 * (1 - 54 / 1000) * (2 / 1000))) in *.
    assert (Hq : 8 / 1000 / s <= 196 / 100).
    { apply Rmult_le_reg_r with s; [lra |].
      replace (8 / 1000 / s * s) with (8 / 1000) by (field; lra). lra. }
    assert (Phi 0 <= Phi (196 / 100 - 8 / 1000 / s)) by (apply Phi_increasing; lra).
    rewrite Phi_0 in *. lra. }
  assert (Hhi : target_power <= power_formula (8 / 1000) (54 / 1000) 50000).
  { unfold power_formula, target_power.
    assert (Hs : 0 < sqrt (54 / 1000 * (1 - 54 / 1000) * (2 / 50000)) < 204 / 100000).
    { split; [apply sqrt_lt_R0; lra |]. apply (sqrt_between 0 (204 / 100000)); lra. }
    set (s := sqrt (54 / 1000 * (1 - 54 / 1000) * (2 / 50000))) in *.
    assert (Hq : 392 / 100 <= 8 / 1000 / s).
    { apply Rmult_le_reg_r with s; [lra |].
      replace (8 / 1000 / s * s) with (8 / 1000) by (field; lra). lra. }
    assert (Phi (critical_z - 8 / 1000 / s) <= 25 / 1000)
      by (apply Phi_far_left; unfold critical_z; lra).
    lra. }
  split; [split; [lra | split; [exact H1 | split; [exact H2 | split; assumption]]] |].
  apply (sample_for_80_between_brackets (8 / 1000) (54 / 1000) 1000 50000);
    [lra | exact H1 | exact H2 | split; assumption].
Defined.

(** ** An effect that is not positive *)

Lemma power_formula_antitone (d p n1 n2 : R) :
  d <= 0 -> 0 < p < 1 -> 0 < n1 <= n2 ->
  power_formula d p n2 <= power_formula d p n1 <= 1 - Phi critical_z.
Proof.
  intros Hd Hp [Hn1 Hn].
  assert (Hn2 : 0 < n2) by lra.
  pose proof (power_variance_pos p n1 Hp Hn1) as V1.
  pose proof (power_variance_pos p n2 Hp Hn2) as V2.
  assert (HV : p * (1 - p) * (2 / n2) <= p * (1 - p) * (2 / n1)).
  { apply Rmult_le_compat_l; [apply Rmult_le_pos; lra |].
    apply Rmult_le_compat_l; [lra |]. apply Rinv_le_contravar; assumption. }
  pose proof (sqrt_le_1_alt _ _ HV) as HS.
  pose proof (sqrt_lt_R0 _ V1) as S1. pose proof (sqrt_lt_R0 _ V2) as S2.
  unfold power_formula.
  set (s1 := sqrt (p * (1 - p) * (2 / n1))) in *.
  set (s2 := sqrt (p * (1 - p) * (2 / n2))) in *.
  assert (Hi : / s1 <= / s2) by (apply Rinv_le_contravar; assumption).
  assert (Hq : - d * / s1 <= - d * / s2) by (apply Rmult_le_compat_l; lra).
  assert (H0 : 0 <= - d * / s1).
  { apply Rmult_le_pos; [lra |]. left. now apply Rinv_0_lt_compat. }
  assert (Phi (critical_z - d / s1) <= Phi (critical_z - d / s2))
    by (apply Phi_increasing; unfold Rdiv; lra).
  assert (Phi critical_z <= Phi (critical_z - d / s1))
    by (apply Phi_increasing; unfold Rdiv; lra).
  lra.
Qed.

Lemma sample_sizes_cons :
  exists rest, sample_sizes = 1000 :: rest.
Proof.
  unfold sample_sizes, linspace. cbn [seq map Nat.sub].
  eexists. f_equal. cbn [INR]. ring.
Qed.

Lemma argmin_head_least (m : R) (rest : list R) :
  (forall x, In x rest -> m <= x) -> argmin (map Fin (m :: rest)) = Ok 0%nat.
Proof.
  intros Hall. cbn [map argmin is_nan]. f_equal.
  destruct (argmin_loop_least rest 1 m 0) as [[Ek _] | (j & y & _ & Ey & Hy & _)].
  - exact Ek.
  - apply nth_error_In, Hall in Ey. lra.
Qed.

Lemma sample_for_80_bottom_of_grid (d p : R) :
  d <= 0 -> 0 < p < 1 -> sample_for_80 d p = Ok 1000.
Proof.
  intros Hd Hp. unfold sample_for_80, power_80_idx.
  rewrite (gaps_finite d p Hp).
  destruct sample_sizes_cons as [rest E].
  assert (Hrange : forall n, In n rest -> 1000 <= n).
  { intros n Hn. apply sample_sizes_range. rewrite E. now right. }
  rewrite E.
  change (map (gap d p) (1000 :: rest)) with (gap d p 1000 :: map (gap d p) rest).
  rewrite (argmin_head_least (gap d p 1000)).
  - reflexivity.
  - intros g Hg. apply in_map_iff in Hg. destruct Hg as (n & <- & Hn).
    specialize (Hrange n Hn).
    assert (H1 : 0 < 1000 <= n) by lra. assert (H0 : 0 < 1000 <= 1000) by lra.
    pose proof (power_formula_antitone d p 1000 n Hd Hp H1) as [A1 A2].
    pose proof (power_formula_antitone d p 1000 1000 Hd Hp H0) as [_ A3].
    pose proof upper_tail_at_critical_z as [_ T].
    unfold gap, target_power. rewrite !Rabs_left1 by lra. lra.
Qed.

Lemma power_nan_when_degenerate (p n : R) :
  p = 0 \/ p = 1 -> n <> 0 -> power 0 p n = NaN.
Proof.
  intros Hp Hn. unfold power. rewrite np_div_fin by exact Hn. cbn [np_mul].
  replace (p * (1 - p) * (2 / n)) with 0 by (destruct Hp as [-> | ->]; ring).
  rewrite np_sqrt_nonneg, sqrt_0 by lra.
  unfold np_div. destruct (Req_dec_T 0 0) as [_ | N]; [reflexivity | now destruct N].
Qed.

Lemma sample_for_80_degenerate (p : R) :
  p = 0 \/ p = 1 -> sample_for_80 0 p = Ok 1000.
Proof.
  intros Hp. unfold sample_for_80, power_80_idx, powers.
  destruct sample_sizes_cons as [rest E]. rewrite E. cbn [map].
  rewrite (power_nan_when_degenerate p 1000 Hp) by lra. reflexivity.
Qed.

(** Without a positive effect the closest-match search ends on the first
    point of the grid. *)
Lemma sample_for_80_no_effect (c v : Variant) :
  valid c -> valid v ->
  (conversion_count v * visitor_count c <= conversion_count c * visitor_count v)%Z ->
  exists r, compute_test_result c v = Ok r
    /\ sample_for_80 (p_variant r - p_control r) (p_pooled r) = Ok 1000
    /\ (power (p_variant r - p_control r) (p_pooled r) 1000 = NaN
        \/ exists w, power (p_variant r - p_control r) (p_pooled r) 1000 = Fin w
                     /\ w <= 25 / 1000).
Proof.
  intros Hc Hv Hx.
  destruct (compute_test_result_rates c v Hc Hv) as (r & Er & Ec & Evr & Ep).
  exists r. split; [exact Er |]. rewrite Ec, Evr, Ep.
  assert (Hd : rate v - rate c <= 0).
  { pose proof (rate_difference_cross c v Hc Hv) as Hcr.
    destruct (valid_reals c Hc) as [H1 _], (valid_reals v Hv) as [H2 _].
    assert (0 < IZR (visitor_count c) * IZR (visitor_count v))
      by (apply Rmult_lt_0_compat; assumption).
    assert (IZR (conversion_count v * visitor_count c
                 - conversion_count c * visitor_count v) <= 0)
      by (apply IZR_le; lia).
    nra. }
  pose proof (pooled_range c v Hc Hv) as [P0 P1].
  destruct (Req_dec_T (pooled c v) 0) as [E0 | N0];
    [| destruct (Req_dec_T (pooled c v) 1) as [E1 | N1]].
  - rewrite (degenerate_rates c v Hc Hv (or_introl E0)).
    split; [apply sample_for_80_degenerate; now left |].
    left. apply power_nan_when_degenerate; [now left | lra].
  - rewrite (degenerate_rates c v Hc Hv (or_intror E1)).
    split; [apply sample_for_80_degenerate; now right |].
    left. apply power_nan_when_degenerate; [now right | lra].
  - assert (Hp : 0 < pooled c v < 1) by lra.
    split; [now apply sample_for_80_bottom_of_grid |].
    right. exists (power_formula (rate v - rate c) (pooled c v) 1000).
    split; [apply power_finite; [exact Hp | lra] |].
    assert (H0 : 0 < 1000 <= 1000) by lra.
    pose proof (power_formula_antitone _ _ 1000 1000 Hd Hp H0) as [_ A].
    pose proof upper_tail_at_critical_z. lra.
Qed.

Lemma annotate_in_complete_output (r : TestResult) (l n x : R) :
  In (Annotate x) (complete_output r l n) <-> x = n.
Proof.
  unfold complete_output, summary_head. cbn [app In]. split.
  - intros H.
    repeat (destruct H as [H | H]; [first [discriminate H | injection H as <-; reflexivity] |]).
    destruct H.
  - intros ->. do 17 right. left. reflexivity.
Qed.

Lemma no_annotate_in_summary_head (r : TestResult) (x : R) :
  ~ In (Annotate x) (summary_head r).
Proof.
  intros H. apply summary_head_prints_only in H. discriminate H.
Qed.

(** X10.  On valid arms with counts below [2^500] where the variant's rate
    is not above the control's, the sample size line 238 finds for 80% power
    is 1000, the first point of the grid, although the power there is at
    most 0.025 or not a number: the closest-match search has nothing near
    the target to find.  When the control arm has a conversion the run
    completes and the one annotation of the chart (line 240) carries that
    1000; when it has none, the run stops at line 43 and annotates
    nothing. *)
Theorem sample_for_80_without_positive_effect (c v : Variant) :
  valid c -> valid v -> moderate c -> moderate v ->
  (conversion_count v * visitor_count c <= conversion_count c * visitor_count v)%Z ->
  exists r, compute_test_result c v = Ok r
    /\ sample_for_80 (p_variant r - p_control r) (p_pooled r) = Ok 1000
    /\ (power (p_variant r - p_control r) (p_pooled r) 1000 = NaN
        \/ exists w, power (p_variant r - p_control r) (p_pooled r) 1000 = Fin w
                     /\ w <= 25 / 1000)
    /\ (conversion_count c <> 0%Z ->
        snd (run c v) = Ok tt
        /\ forall x, In (Annotate x) (fst (run c v)) <-> x = 1000)
    /\ (conversion_count c = 0%Z ->
        run c v = (summary_head r, Raise ZeroDivisionError)
        /\ forall x, ~ In (Annotate x) (fst (run c v))).
Proof.
  intros Hc Hv Mc Mv Hx.
  destruct (sample_for_80_no_effect c v Hc Hv Hx) as (r & Er & En & Hpow).
  exists r. split; [exact Er |]. split; [exact En |]. split; [exact Hpow |].
  destruct (valid_nonzero c v Hc Hv) as (N1 & N2 & N3).
  split.
  - intros N4.
    assert (Hp : run_precondition c v) by (unfold run_precondition; tauto).
    destruct (run_complete_output c v (moderate_in_float_range c v Mc Mv) Hp)
      as (r' & n & Er' & En' & Erun).
    rewrite Er in Er'. injection Er' as <-.
    rewrite En in En'. injection En' as <-.
    rewrite Erun. cbn [fst snd]. split; [reflexivity |].
    intros x. apply annotate_in_complete_output.
  - intros E4.
    destruct (run_to_relative_lift c v r Er) as [Hrun _].
    assert (Ez : p_control r = 0).
    { rewrite (compute_test_result_p_control c v r Er). now apply rate_zero_iff. }
    rewrite (Hrun Ez). cbn [fst]. split; [reflexivity |].
    intros x. apply no_annotate_in_summary_head.
Qed.

Lemma sample_for_80_without_positive_effect_witness :
  ((valid reference_control /\ valid equal_variant)
   /\ (moderate reference_control /\ moderate equal_variant)
   /\ conversion_count reference_control <> 0%Z)
  /\ (snd (run reference_control equal_variant) = Ok tt
      /\ forall x, In (Annotate x) (fst (run reference_control equal_variant)) <-> x = 1000)
  /\ ((valid empty_control /\ valid empty_variant)
      /\ (moderate empty_control /\ moderate empty_variant)
      /\ conversion_count empty_control = 0%Z)
  /\ forall x, ~ In (Annotate x) (fst (run empty_control empty_variant)).
Proof.
  assert (V1 : valid reference_control) by valid_arm.
  assert (V2 : valid equal_variant) by valid_arm.
  assert (V3 : valid empty_control) by valid_arm.
  assert (V4 : valid empty_variant) by valid_arm.
  assert (M1 : moderate reference_control) by (split; vm_compute; reflexivity).
  assert (M2 : moderate equal_variant) by (split; vm_compute; reflexivity).
  assert (M3 : moderate empty_control) by (split; vm_compute; reflexivity).
  assert (M4 : moderate empty_variant) by (split; vm_compute; reflexivity).
  assert (X1 : (conversion_count equal_variant * visitor_count reference_control
                <= conversion_count reference_control * visitor_count equal_variant)%Z)
    by (cbn; lia).
  assert (X2 : (conversion_count empty_variant * visitor_count empty_control
                <= conversion_count empty_control * visitor_count empty_variant)%Z)
    by (cbn; lia).
  assert (N : conversion_count reference_control <> 0%Z) by (cbn; lia).
  split; [exact (conj (conj V1 V2) (conj (conj M1 M2) N)) |].
  split.
  - destruct (sample_for_80_without_positive_effect
                reference_control equal_variant V1 V2 M1 M2 X1)
      as (r & _ & _ & _ & H & _).
    exact (H N).
  - split; [exact (conj (conj V3 V4) (conj (conj M3 M4) eq_refl)) |].
    destruct (sample_for_80_without_positive_effect
                empty_control empty_variant V3 V4 M3 M4 X2)
      as (r & _ & _ & _ & _ & H).
    exact (proj2 (H eq_refl)).
Defined.

(** * Further properties of the confidence intervals *)

Lemma lt_scaled_sqrt (a k q : R) :
  0 <= a -> 0 < k -> 0 <= q -> (a < k * sqrt q <-> a * a < k * k * q).
Proof.
  intros Ha Hk Hq. pose proof (sqrt_pos q) as Hs. pose proof (sqrt_sqrt q Hq) as E.
  set (s := sqrt q) in *. rewrite <- E.
  assert (0 <= k * s) by (apply Rmult_le_pos; lra).
  split; intros H0.
  - replace (k * k * (s * s)) with (k * s * (k * s)) by ring. nra.
  - apply Rnot_le_lt. intros Hle.
    replace (k * k * (s * s)) with (k * s * (k * s)) in H0 by ring. nra.
Qed.

Lemma margin_variance_nonneg (x : R) (n : Z) :
  0 <= x <= 1 -> (0 < n)%Z -> 0 <= x * (1 - x) / IZR n.
Proof.
  intros Hx Hn. apply IZR_lt in Hn.
  apply Rmult_le_pos; [apply Rmult_le_pos; lra | left; now apply Rinv_0_lt_compat].
Qed.

(** X11.  For a rate in [0,1] the half-width of the interval (lines
    144-145) is a number that is never negative, does not grow when the
    visitor count grows, is at most [1.96 * sqrt (1 / (4 n))] (its value at a
    rate of one half), and is 0 exactly when the rate is 0 or 1. *)
Theorem ci_shrinks_with_visitors (x : R) (n1 n2 : Z) :
  0 <= x <= 1 -> (0 < n1 <= n2)%Z ->
  exists m1 m2, ci x n1 = Ok (Fin m1) /\ ci x n2 = Ok (Fin m2)
    /\ 0 <= m2 <= m1
    /\ m1 <= critical_z * sqrt (1 / (4 * IZR n1))
    /\ (m1 = 0 <-> x = 0 \/ x = 1).
Proof.
  intros Hx [Hn1 Hn].
  assert (Hn2 : (0 < n2)%Z) by lia.
  exists (margin x n1), (margin x n2).
  rewrite !ci_finite by assumption.
  split; [reflexivity |]. split; [reflexivity |].
  pose proof (margin_variance_nonneg x n1 Hx Hn1) as Q1.
  pose proof (margin_variance_nonneg x n2 Hx Hn2) as Q2.
  apply IZR_lt in Hn1, Hn2. apply IZR_le in Hn.
  assert (Hq : x * (1 - x) / IZR n2 <= x * (1 - x) / IZR n1).
  { apply Rmult_le_compat_l; [apply Rmult_le_pos; lra |].
    apply Rinv_le_contravar; assumption. }
  assert (Hb : x * (1 - x) / IZR n1 <= 1 / (4 * IZR n1)).
  { replace (1 / (4 * IZR n1)) with (1 / 4 / IZR n1) by (field; lra).
    apply Rmult_le_compat_r; [left; now apply Rinv_0_lt_compat |].
    pose proof (Rle_0_sqr (x - 1 / 2)) as Hsq. unfold Rsqr in Hsq. lra. }
  pose proof (sqrt_le_1_alt _ _ Hq) as S.
  pose proof (sqrt_le_1_alt _ _ Hb) as B.
  pose proof (sqrt_pos (x * (1 - x) / IZR n2)) as P2.
  unfold margin, critical_z in *. repeat split; try nra.
  - intros E.
    assert (Es : sqrt (x * (1 - x) / IZR n1) = 0) by lra.
    apply sqrt_eq_0 in Es; [| exact Q1].
    assert (Ex : x * (1 - x) = 0).
    { apply (Rmult_eq_compat_r (IZR n1)) in Es.
      unfold Rdiv in Es. rewrite Rmult_assoc, Rinv_l, Rmult_1_r, Rmult_0_l in Es by lra.
      exact Es. }
    destruct (Rmult_integral _ _ Ex); [left | right]; lra.
  - intros [-> | ->].
    + replace (0 * (1 - 0) / IZR n1) with 0 by (unfold Rdiv; ring).
      rewrite sqrt_0. ring.
    + replace (1 * (1 - 1) / IZR n1) with 0 by (unfold Rdiv; ring).
      rewrite sqrt_0. ring.
Qed.

Lemma ci_shrinks_with_visitors_witness :
  (0 <= 5 / 100 <= 1 /\ (0 < 100 <= 10000)%Z)
  /\ exists m1 m2, ci (5 / 100) 100 = Ok (Fin m1) /\ ci (5 / 100) 10000 = Ok (Fin m2)
    /\ 0 <= m2 <= m1
    /\ m1 <= critical_z * sqrt (1 / (4 * IZR 100))
    /\ (m1 = 0 <-> 5 / 100 = 0 \/ 5 / 100 = 1).
Proof.
  split; [split; [lra | lia] |].
  apply (ci_shrinks_with_visitors (5 / 100) 100 10000); [lra | lia].
Defined.

(** X12.  On a valid arm the interval around its rate has numbers for
    bounds; the lower bound is below 0 exactly when the arm has a
    conversion but fewer than [1.96^2 * (1 - rate)] of them, and the upper
    bound is above 1 exactly when it has a visitor who did not convert but
    fewer than [1.96^2 * rate] of them.  With at least 4 conversions and at
    least 4 visitors who did not convert the interval lies within [0,1]. *)
Theorem confidence_interval_leaves_unit_interval (a : Variant) :
  valid a ->
  exists lo hi,
    confidence_interval (rate a) (visitor_count a) = Ok (Fin lo, Fin hi)
    /\ (lo < 0 <-> (0 < conversion_count a)%Z
                   /\ IZR (conversion_count a) < critical_z * critical_z * (1 - rate a))
    /\ (1 < hi <-> (conversion_count a < visitor_count a)%Z
                   /\ IZR (visitor_count a - conversion_count a)
                      < critical_z * critical_z * rate a)
    /\ ((4 <= conversion_count a)%Z -> (4 <= visitor_count a - conversion_count a)%Z ->
        0 <= lo /\ hi <= 1).
Proof.
  intros Ha. pose proof (rate_range a Ha) as Hx.
  destruct (valid_reals a Ha) as [Hn [Hc0 Hc1]].
  assert (Hpos : (0 < visitor_count a)%Z) by apply Ha.
  rewrite (confidence_interval_finite _ _ Hx Hpos).
  pose proof (margin_variance_nonneg (rate a) (visitor_count a) Hx Hpos) as Hq.
  assert (Ecc : IZR (conversion_count a) = rate a * IZR (visitor_count a))
    by (unfold rate; field; lra).
  assert (Hcz : 0 < critical_z) by (unfold critical_z; lra).
  assert (Lo : rate a - margin (rate a) (visitor_count a) < 0
               <-> (0 < conversion_count a)%Z
                   /\ IZR (conversion_count a) < critical_z * critical_z * (1 - rate a)).
  { unfold margin.
    pose proof (lt_scaled_sqrt (rate a) critical_z _ (proj1 Hx) Hcz Hq) as L.
    set (x := rate a) in *. set (n := IZR (visitor_count a)) in *.
    set (k := critical_z) in *.
    assert (Eq : k * k * (x * (1 - x) / n) * n = k * k * x * (1 - x)) by (field; lra).
    split.
    - intros H. assert (Hlt : x < k * sqrt (x * (1 - x) / n)) by lra.
      apply L in Hlt.
      assert (Hx0 : 0 < x).
      { destruct (proj1 Hx) as [H0 | H0]; [exact H0 |]. exfalso.
        rewrite <- H0 in Hlt. unfold Rdiv in Hlt. nra. }
      split; [apply lt_IZR; rewrite Ecc; nra |].
      rewrite Ecc.
      assert (x * x * n < k * k * x * (1 - x)) by (rewrite <- Eq; nra).
      nra.
    - intros [Hc Hlt]. apply IZR_lt in Hc. rewrite Ecc in Hc, Hlt.
      assert (Hx0 : 0 < x) by nra.
      assert (x < k * sqrt (x * (1 - x) / n)); [| lra].
      apply L. apply Rmult_lt_reg_r with n; [exact Hn |]. rewrite Eq. nra. }
  assert (Hi : 1 < rate a + margin (rate a) (visitor_count a)
               <-> (conversion_count a < visitor_count a)%Z
                   /\ IZR (visitor_count a - conversion_count a)
                      < critical_z * critical_z * rate a).
  { unfold margin. rewrite minus_IZR.
    assert (Hy : 0 <= 1 - rate a) by lra.
    pose proof (lt_scaled_sqrt (1 - rate a) critical_z _ Hy Hcz Hq) as L.
    set (x := rate a) in *. set (n := IZR (visitor_count a)) in *.
    set (k := critical_z) in *.
    assert (Eq : k * k * (x * (1 - x) / n) * n = k * k * x * (1 - x)) by (field; lra).
    split.
    - intros H. assert (Hlt : 1 - x < k * sqrt (x * (1 - x) / n)) by lra.
      apply L in Hlt.
      assert (Hx1 : x < 1).
      { destruct (proj2 Hx) as [H1 | H1]; [exact H1 |]. exfalso.
        rewrite H1 in Hlt. unfold Rdiv in Hlt. nra. }
      assert (Hxn : 0 < (1 - x) * n) by (apply Rmult_lt_0_compat; lra).
      split; [apply lt_IZR; rewrite Ecc; fold n; lra |].
      rewrite Ecc.
      assert (H2 : (1 - x) * (1 - x) * n < k * k * x * (1 - x)) by (rewrite <- Eq; nra).
      replace (n - x * n) with ((1 - x) * n) by ring.
      apply Rmult_lt_reg_l with (1 - x); [lra |]. lra.
    - intros [Hc Hlt]. apply IZR_lt in Hc. rewrite Ecc in Hc, Hlt. fold n in Hc.
      assert (Hx1 : x < 1) by nra.
      assert (1 - x < k * sqrt (x * (1 - x) / n)); [| lra].
      apply L. apply Rmult_lt_reg_r with n; [exact Hn |]. rewrite Eq.
      apply (Rmult_lt_compat_l (1 - x)) in Hlt; [| lra]. lra. }
  eexists; eexists; split; [reflexivity |].
  split; [exact Lo |]. split; [exact Hi |].
  intros H4 H4'. apply IZR_le in H4, H4'. rewrite minus_IZR in H4'.
  unfold critical_z in *. split.
  - apply Rnot_lt_le. intros H. apply Lo in H. destruct H as [_ H]. nra.
  - apply Rnot_lt_le. intros H. apply Hi in H. destruct H as [_ H].
    rewrite minus_IZR in H. nra.
Qed.

Lemma confidence_interval_leaves_unit_interval_witness :
  valid two_visitors
  /\ exists lo hi,
    confidence_interval (rate two_visitors) (visitor_count two_visitors) = Ok (Fin lo, Fin hi)
    /\ (lo < 0 <-> (0 < conversion_count two_visitors)%Z
                   /\ IZR (conversion_count two_visitors)
                      < critical_z * critical_z * (1 - rate two_visitors))
    /\ (1 < hi <-> (conversion_count two_visitors < visitor_count two_visitors)%Z
                   /\ IZR (visitor_count two_visitors - conversion_count two_visitors)
                      < critical_z * critical_z * rate two_visitors)
    /\ ((4 <= conversion_count two_visitors)%Z ->
        (4 <= visitor_count two_visitors - conversion_count two_visitors)%Z ->
        0 <= lo /\ hi <= 1).
Proof.
  split; [valid_arm |].
  apply (confidence_interval_leaves_unit_interval two_visitors). valid_arm.
Defined.

(** * The shaded regions of the charts *)

Lemma map_seq_sorted (f : nat -> R) :
  (forall i j, (i <= j)%nat -> f i <= f j) ->
  forall n a, StronglySorted Rle (map f (seq a n)).
Proof.
  intros Hf n. induction n as [| n IH]; intros a; cbn [seq map].
  - constructor.
  - constructor; [apply IH |].
    apply Forall_forall. intros y Hy. apply in_map_iff in Hy.
    destruct Hy as (j & <- & Hj). apply in_seq in Hj. apply Hf. lia.
Qed.

Lemma linspace_sorted (a b : R) (num : nat) :
  a <= b -> (2 <= num)%nat -> StronglySorted Rle (linspace a b num).
Proof.
  intros Hab Hnum. unfold linspace. apply map_seq_sorted.
  intros i j Hij. apply le_INR in Hij.
  assert (Hd : 0 < INR (num - 1)) by (apply lt_0_INR; lia).
  assert (Hs : 0 <= (b - a) / INR (num - 1)).
  { apply Rmult_le_pos; [lra | left; now apply Rinv_0_lt_compat]. }
  apply Rplus_le_compat_l, Rmult_le_compat_r; assumption.
Qed.

Lemma filter_none {A : Type} (f : A -> bool) (l : list A) :
  (forall y, In y l -> f y = false) -> filter f l = [].
Proof.
  induction l as [| x l IH]; intros H; [reflexivity |].
  cbn [filter]. rewrite (H x (or_introl eq_refl)). apply IH.
  intros y Hy. apply H. now right.
Qed.

(** On a sorted array the points beyond [t] in absolute value are those
    below [- t] followed by those above [t]. *)
Lemma abs_mask_split (t : R) (l : list R) :
  0 <= t -> StronglySorted Rle l ->
  filter (fun y => np_ltb (Fin t) (np_abs (Fin y))) l
  = mask_lt l (Fin (- t)) ++ mask_gt l (Fin t).
Proof.
  intros Ht Hs. unfold mask_lt, mask_gt.
  induction Hs as [| x l Hs IH Hall]; [reflexivity |].
  destruct (Rlt_dec x (- t)) as [Hx | Hx].
  - cbn [filter np_abs np_ltb].
    destruct (Rlt_dec t (Rabs x)) as [_ | N]; [| exfalso; apply N; rewrite Rabs_left; lra].
    destruct (Rlt_dec x (- t)) as [_ | N]; [| contradiction].
    destruct (Rlt_dec t x) as [N | _]; [lra |].
    cbn [app]. f_equal. exact IH.
  - assert (Hge : forall y, In y (x :: l) -> - t <= y).
    { intros y [<- | Hy]; [lra |].
      rewrite Forall_forall in Hall. specialize (Hall y Hy). lra. }
    rewrite (filter_none (fun y => np_ltb (Fin y) (Fin (- t)))).
    + cbn [app]. apply filter_ext_in. intros y Hy. specialize (Hge y Hy).
      cbn [np_abs np_ltb].
      destruct (Rlt_dec t (Rabs y)) as [H1 | H1], (Rlt_dec t y) as [H2 | H2];
        try reflexivity; exfalso.
      * unfold Rabs in H1. destruct (Rcase_abs y); lra.
      * apply H1. rewrite Rabs_right; lra.
    + intros y Hy. specialize (Hge y Hy). cbn [np_ltb].
      destruct (Rlt_dec y (- t)) as [H | _]; [lra | reflexivity].
Qed.

Lemma x_z_sorted : StronglySorted Rle x_z.
Proof. apply linspace_sorted; [lra | lia]. Qed.

Lemma abs_mask_split_float (z : npfloat) (l : list R) :
  StronglySorted Rle l ->
  filter (fun y => np_ltb (np_abs z) (np_abs (Fin y))) l
  = mask_lt l (np_neg (np_abs z)) ++ mask_gt l (np_abs z).
Proof.
  intros Hs. destruct z as [r | | |]; cbn [np_abs np_neg].
  - apply abs_mask_split; [apply Rabs_pos | exact Hs].
  - unfold mask_lt, mask_gt. rewrite !filter_none; try reflexivity; intros; reflexivity.
  - unfold mask_lt, mask_gt. rewrite !filter_none; try reflexivity; intros; reflexivity.
  - unfold mask_lt, mask_gt. rewrite !filter_none; try reflexivity; intros; reflexivity.
Qed.

Lemma abs_mask_none (z : npfloat) (l : list R) :
  is_nan z = true \/ z = PInf \/ z = NInf ->
  filter (fun y => np_ltb (np_abs z) (np_abs (Fin y))) l = [].
Proof.
  intros H. apply filter_none. intros y _.
  destruct z as [r | | |]; try reflexivity.
  destruct H as [H | [H | H]]; discriminate H.
Qed.

Lemma abs_mask_incl (t z : R) (l : list R) :
  0 <= t -> t <= Rabs z ->
  incl (filter (fun y => np_ltb (np_abs (Fin z)) (np_abs (Fin y))) l)
       (filter (fun y => np_ltb (np_abs (Fin t)) (np_abs (Fin y))) l).
Proof.
  intros Ht Hz y Hy. apply filter_In in Hy. destruct Hy as [Hin Hy].
  apply filter_In. split; [exact Hin |].
  cbn [np_abs] in *. apply np_ltb_fin in Hy. apply np_ltb_fin.
  rewrite (Rabs_right t) by lra. lra.
Qed.

Lemma x_simple_is_x_z : x_simple = x_z.
Proof. unfold x_simple, x_z. reflexivity. Qed.

Lemma shaded_points_split (z : npfloat) : x_shade z = x_p_left z ++ x_p_right z.
Proof.
  unfold x_shade, x_p_left, x_p_right. rewrite x_simple_is_x_z.
  apply abs_mask_split_float, x_z_sorted.
Qed.

(** X13.  The points line 286 shades in the second figure are, in order, the
    left tail followed by the right tail that lines 116-117 shade in the
    first figure, for every value of the z statistic ([nan] and the
    infinities shade nothing in either figure).  The rejection region of
    lines 90-91 is that shading at [z = 1.96], and the shading of a
    z statistic of absolute value at least 1.96 lies inside the rejection
    region. *)
Theorem shaded_points_are_both_tails :
  (forall z, x_shade z = x_p_left z ++ x_p_right z)
  /\ (x_shade NaN = [] /\ x_shade PInf = [] /\ x_shade NInf = [])
  /\ x_left ++ x_right = x_shade (Fin critical_z)
  /\ (forall z, critical_z <= Rabs z -> incl (x_shade (Fin z)) (x_left ++ x_right)).
Proof.
  assert (Hcz : Rabs critical_z = critical_z)
    by (apply Rabs_right; unfold critical_z; lra).
  assert (Hrej : x_left ++ x_right = x_shade (Fin critical_z)).
  { rewrite shaded_points_split. unfold x_left, x_right, x_p_left, x_p_right.
    cbn [np_abs np_neg]. rewrite Hcz. reflexivity. }
  split; [exact shaded_points_split |]. split.
  - unfold x_shade. split; [| split]; apply abs_mask_none; auto.
  - split; [exact Hrej |].
    intros z Hz. rewrite Hrej. unfold x_shade.
    apply abs_mask_incl; [unfold critical_z; lra | exact Hz].
Qed.

Lemma shaded_points_are_both_tails_witness :
  critical_z <= Rabs 2 /\ incl (x_shade (Fin 2)) (x_left ++ x_right).
Proof.
  assert (H : critical_z <= Rabs 2)
    by (rewrite Rabs_right; unfold critical_z; lra).
  split; [exact H |].
  exact (proj2 (proj2 (proj2 shaded_points_are_both_tails)) 2 H).
Defined.

(** * More data at the same rates *)

Lemma scale_arm_valid (k : Z) (a : Variant) :
  (0 < k)%Z -> valid a -> valid (scale_arm k a).
Proof.
  unfold valid, scale_arm. cbn [visitor_count conversion_count].
  intros Hk [H1 [H2 H3]]. repeat split.
  - now apply Z.mul_pos_pos.
  - apply Z.mul_nonneg_nonneg; lia.
  - apply Z.mul_le_mono_nonneg_l; lia.
Qed.

Lemma scale_arm_rate (k : Z) (a : Variant) :
  (0 < k)%Z -> valid a -> rate (scale_arm k a) = rate a.
Proof.
  intros Hk Ha. destruct (valid_reals a Ha) as [Hn _]. apply IZR_lt in Hk.
  unfold rate, scale_arm. cbn [conversion_count visitor_count].
  rewrite !mult_IZR. field. split; lra.
Qed.

Lemma scale_arm_pooled (k : Z) (c v : Variant) :
  (0 < k)%Z -> valid c -> valid v ->
  pooled (scale_arm k c) (scale_arm k v) = pooled c v.
Proof.
  intros Hk Hc Hv.
  destruct (valid_reals c Hc) as [H1 _], (valid_reals v Hv) as [H2 _]. apply IZR_lt in Hk.
  unfold pooled, scale_arm. cbn [conversion_count visitor_count].
  rewrite !mult_IZR, <- !Rmult_plus_distr_l. field. split; lra.
Qed.

Lemma scale_arm_standard_error (k : Z) (c v : Variant) :
  (0 < k)%Z -> valid c -> valid v ->
  standard_error (scale_arm k c) (scale_arm k v) = standard_error c v / sqrt (IZR k).
Proof.
  intros Hk Hc Hv. unfold standard_error.
  pose proof Hk as Hk'. apply IZR_lt in Hk'.
  rewrite <- sqrt_div_alt by exact Hk'. f_equal.
  unfold variance_term. rewrite (scale_arm_pooled k c v Hk Hc Hv).
  destruct (valid_reals c Hc) as [H1 _], (valid_reals v Hv) as [H2 _].
  unfold scale_arm. cbn [visitor_count]. rewrite !mult_IZR. field. repeat split; lra.
Qed.

Lemma scaled_z_stat (k : Z) (c v : Variant) :
  (0 < k)%Z -> valid c -> valid v -> 0 < pooled c v < 1 ->
  exists r r' z,
    compute_test_result c v = Ok r
    /\ compute_test_result (scale_arm k c) (scale_arm k v) = Ok r'
    /\ p_control r' = p_control r /\ p_variant r' = p_variant r
    /\ p_pooled r' = p_pooled r
    /\ z_stat r = Fin z /\ z_stat r' = Fin (sqrt (IZR k) * z).
Proof.
  intros Hk Hc Hv Hp.
  pose proof (scale_arm_valid k c Hk Hc) as Hc'.
  pose proof (scale_arm_valid k v Hk Hv) as Hv'.
  assert (Hp' : 0 < pooled (scale_arm k c) (scale_arm k v) < 1)
    by (rewrite scale_arm_pooled; assumption).
  destruct (z_stat_finite c v Hc Hv Hp) as (r & Er & Ez).
  destruct (z_stat_finite _ _ Hc' Hv' Hp') as (r' & Er' & Ez').
  destruct (compute_test_result_links _ _ r Er) as (A1 & A2 & A3 & _).
  destruct (compute_test_result_links _ _ r' Er') as (B1 & B2 & B3 & _).
  exists r, r', ((rate v - rate c) / standard_error c v).
  split; [exact Er |]. split; [exact Er' |].
  rewrite A1, A2, A3, B1, B2, B3, !scale_arm_rate, scale_arm_pooled by assumption.
  repeat split; try assumption.
  rewrite Ez', !scale_arm_rate, scale_arm_standard_error by assumption.
  f_equal.
  pose proof (standard_error_pos c v Hc Hv Hp).
  assert (0 < sqrt (IZR k)) by (apply sqrt_lt_R0; now apply IZR_lt).
  field. split; lra.
Qed.

(** X14.  Multiplying all four counts of a valid, non-degenerate pair by
    the same positive integer [k] keeps the three rates and multiplies the
    z statistic by [sqrt k]. *)
Theorem z_stat_scales_with_sqrt (k : Z) (c v : Variant) :
  (0 < k)%Z -> valid c -> valid v -> 0 < pooled c v < 1 ->
  exists r r' z,
    compute_test_result c v = Ok r
    /\ compute_test_result (scale_arm k c) (scale_arm k v) = Ok r'
    /\ p_control r' = p_control r /\ p_variant r' = p_variant r
    /\ p_pooled r' = p_pooled r
    /\ z_stat r = Fin z /\ z_stat r' = Fin (sqrt (IZR k) * z).
Proof. exact (scaled_z_stat k c v). Qed.

Lemma z_stat_scales_with_sqrt_witness :
  ((0 < 4)%Z /\ valid reference_control /\ valid reference_variant
   /\ 0 < pooled reference_control reference_variant < 1)
  /\ exists r r' z,
    compute_test_result reference_control reference_variant = Ok r
    /\ compute_test_result (scale_arm 4 reference_control) (scale_arm 4 reference_variant)
       = Ok r'
    /\ p_control r' = p_control r /\ p_variant r' = p_variant r
    /\ p_pooled r' = p_pooled r
    /\ z_stat r = Fin z /\ z_stat r' = Fin (sqrt (IZR 4) * z).
Proof.
  split; [split; [lia | split; [valid_arm | split;
    [valid_arm | exact reference_pooled_inside]]] |].
  apply (z_stat_scales_with_sqrt 4 reference_control reference_variant);
    [lia | valid_arm | valid_arm | exact reference_pooled_inside].
Defined.

(** X16.  With more data at the same rates a significant result stays
    significant and the p-value does not grow: for a valid, non-degenerate
    pair and a positive integer [k], the pair with every count multiplied
    by [k] has a p-value at most that of the original pair. *)
Theorem more_data_keeps_significance (k : Z) (c v : Variant) :
  (0 < k)%Z -> valid c -> valid v -> 0 < pooled c v < 1 ->
  exists r r' p p',
    compute_test_result c v = Ok r
    /\ compute_test_result (scale_arm k c) (scale_arm k v) = Ok r'
    /\ p_value r = Fin p /\ p_value r' = Fin p' /\ p' <= p
    /\ (significant r = true -> significant r' = true).
Proof.
  intros Hk Hc Hv Hp.
  destruct (scaled_z_stat k c v Hk Hc Hv Hp) as (r & r' & z & Er & Er' & _ & _ & _ & Ez & Ez').
  destruct (p_value_of_finite_z _ _ r z Er Ez) as [P S].
  destruct (p_value_of_finite_z _ _ r' _ Er' Ez') as [P' S'].
  assert (H1 : 1 <= sqrt (IZR k)).
  { rewrite <- sqrt_1. apply sqrt_le_1_alt. apply (IZR_le 1). lia. }
  assert (Hz : Rabs z <= Rabs (sqrt (IZR k) * z)).
  { rewrite Rabs_mult, (Rabs_right (sqrt (IZR k))) by lra.
    pose proof (Rabs_pos z). nra. }
  pose proof (Phi_increasing _ _ Hz) as Hphi.
  exists r, r'. eexists; eexists.
  split; [exact Er |]. split; [exact Er' |]. split; [exact P |]. split; [exact P' |].
  split; [lra |]. intros H. apply S'. apply S in H. lra.
Qed.

Lemma more_data_keeps_significance_witness :
  ((0 < 4)%Z /\ valid reference_control /\ valid reference_variant
   /\ 0 < pooled reference_control reference_variant < 1)
  /\ exists r r' p p',
    compute_test_result reference_control reference_variant = Ok r
    /\ compute_test_result (scale_arm 4 reference_control) (scale_arm 4 reference_variant)
       = Ok r'
    /\ p_value r = Fin p /\ p_value r' = Fin p' /\ p' <= p
    /\ (significant r = true -> significant r' = true).
Proof.
  split; [split; [lia | split; [valid_arm | split;
    [valid_arm | exact reference_pooled_inside]]] |].
  apply (more_data_keeps_significance 4 reference_control reference_variant);
    [lia | valid_arm | valid_arm | exact reference_pooled_inside].
Defined.

(** * The lift and the expected impact *)



(** * The plotted power curve *)

Lemma map_sorted (f : R -> R) (l : list R) :
  StronglySorted Rle l ->
  (forall x y, In x l -> In y l -> x <= y -> f x <= f y) ->
  StronglySorted Rle (map f l).
Proof.
  intros Hs. induction Hs as [| x l Hs IH Hall]; intros Hf; cbn [map].
  - constructor.
  - constructor.
    + apply IH. intros a b Ha Hb. apply Hf; now right.
    + apply Forall_forall. intros y Hy. apply in_map_iff in Hy.
      destruct Hy as (b & <- & Hb). rewrite Forall_forall in Hall.
      apply Hf; [now left | now right | now apply Hall].
Qed.

Lemma power_formula_monotone (d p n1 n2 : R) :
  0 <= d -> 0 < p < 1 -> 0 < n1 <= n2 ->
  1 - Phi critical_z <= power_formula d p n1 <= power_formula d p n2.
Proof.
  intros Hd Hp [Hn1 Hn].
  assert (Hn2 : 0 < n2) by lra.
  pose proof (power_variance_pos p n1 Hp Hn1) as V1.
  pose proof (power_variance_pos p n2 Hp Hn2) as V2.
  assert (HV : p * (1 - p) * (2 / n2) <= p * (1 - p) * (2 / n1)).
  { apply Rmult_le_compat_l; [apply Rmult_le_pos; lra |].
    apply Rmult_le_compat_l; [lra |]. apply Rinv_le_contravar; assumption. }
  pose proof (sqrt_le_1_alt _ _ HV) as HS.
  pose proof (sqrt_lt_R0 _ V1) as S1. pose proof (sqrt_lt_R0 _ V2) as S2.
  unfold power_formula.
  set (s1 := sqrt (p * (1 - p) * (2 / n1))) in *.
  set (s2 := sqrt (p * (1 - p) * (2 / n2))) in *.
  assert (Hi : / s1 <= / s2) by (apply Rinv_le_contravar; assumption).
  assert (Hq : d * / s1 <= d * / s2) by (apply Rmult_le_compat_l; lra).
  assert (H0 : 0 <= d * / s1).
  { apply Rmult_le_pos; [lra |]. left. now apply Rinv_0_lt_compat. }
  assert (Phi (critical_z - d / s2) <= Phi (critical_z - d / s1))
    by (apply Phi_increasing; unfold Rdiv; lra).
  assert (Phi (critical_z - d / s1) <= Phi critical_z)
    by (apply Phi_increasing; unfold Rdiv; lra).
  lra.
Qed.

Lemma sample_sizes_sorted : StronglySorted Rle sample_sizes.
Proof. apply linspace_sorted; [lra | lia]. Qed.

(** X17.  For an effect that is not negative and a pooled rate strictly
    between 0 and 1, the list of powers the loop of lines 221-228 plots
    holds 100 numbers, is sorted in non-decreasing order along the grid,
    and none of them is below [1 - Phi 1.96] (at least 0.02499). *)
Theorem plotted_powers_sorted (d p : R) :
  0 <= d -> 0 < p < 1 ->
  exists ws, powers d p = map Fin ws
    /\ length ws = 100%nat
    /\ StronglySorted Rle ws
    /\ forall w, In w ws -> 2499 / 100000 <= w.
Proof.
  intros Hd Hp. exists (map (power_formula d p) sample_sizes).
  split; [| split; [| split]].
  - unfold powers. rewrite map_map. apply map_ext_in.
    intros n Hn. apply sample_sizes_range in Hn. apply power_finite; [exact Hp | lra].
  - rewrite length_map. exact sample_sizes_length.
  - apply map_sorted; [exact sample_sizes_sorted |].
    intros x y Hx _ Hxy. apply sample_sizes_range in Hx.
    apply (power_formula_monotone d p x y Hd Hp). lra.
  - intros w Hw. apply in_map_iff in Hw. destruct Hw as (n & <- & Hn).
    apply sample_sizes_range in Hn.
    assert (H0 : 0 < n <= n) by lra.
    pose proof (power_formula_monotone d p n n Hd Hp H0) as [A _].
    pose proof upper_tail_at_critical_z. lra.
Qed.

Lemma plotted_powers_sorted_witness :
  (0 <= 8 / 1000 /\ 0 < 54 / 1000 < 1)
  /\ exists ws, powers (8 / 1000) (54 / 1000) = map Fin ws
    /\ length ws = 100%nat
    /\ StronglySorted Rle ws
    /\ forall w, In w ws -> 2499 / 100000 <= w.
Proof.
  split; [lra |].
  apply (plotted_powers_sorted (8 / 1000) (54 / 1000)); lra.
Defined.

(** * A verdict just outside the drawn rejection region *)

Lemma PI_upper_fine : PI < 314159266 / 100000000.
Proof.
  destruct (PI_2_3_7_ineq 4) as [_ H].
  unfold tg_alt, PI_2_3_7_tg, Ratan_seq in H. simpl in H. lra.
Qed.

Lemma sqrt_2PI_upper_fine : sqrt (2 * PI) < 250662828 / 100000000.
Proof.
  generalize PI_upper_fine, PI_lower; intros H H'.
  rewrite <- (sqrt_square (250662828 / 100000000)) by lra.
  apply sqrt_lt_1_alt. lra.
Qed.

(** The lower bound on [Phi] with the finer bound on [sqrt (2 * PI)]. *)
Lemma Phi_lower_bound_fine (n : nat) (q lo : Q) :
  (0 <= q)%Q ->
  (lo <= (1 # 2) + gauss_sumQ (2 * n + 1) q * (100000000 # 250662828))%Q ->
  Q2R lo <= Phi (Q2R q).
Proof.
  intros Hq Hlo. apply Qle_Rle in Hq, Hlo.
  rewrite Q2R_plus, Q2R_mult, gauss_sumQ_Q2R, !Q2R_ratio in Hlo.
  rewrite Q2R_ratio in Hq. replace (IZR 0 / IZR 1) with 0 in Hq by field.
  pose proof (gauss_integral_lower n (Q2R q) Hq) as Hl.
  pose proof (gauss_integral_nonneg (Q2R q) Hq) as H0.
  pose proof sqrt_2PI_pos as Hsl. pose proof sqrt_2PI_upper_fine as Hsu.
  rewrite Phi_as_gauss_integral.
  set (s := sqrt (2 * PI)) in *. set (I := gauss_integral (Q2R q)) in *.
  set (L := gauss_sum (2 * n + 1) (Q2R q)) in *.
  apply Rle_trans with (1 := Hlo). apply Rplus_le_compat_l.
  assert (Hs : 0 < / s) by (apply Rinv_0_lt_compat; lra).
  assert (Hc : 100000000 / 250662828 < / s).
  { replace (100000000 / 250662828) with (/ (250662828 / 100000000)) by field.
    apply Rinv_lt_contravar; [apply Rmult_lt_0_compat; lra | exact Hsu]. }
  unfold Rdiv at 2. destruct (Rle_dec 0 L) as [HL | HL].
  - apply Rle_trans with (L * / s); [apply Rmult_le_compat_l; lra |].
    apply Rmult_le_compat_r; lra.
  - apply Rle_trans with 0; [| apply Rmult_le_pos; lra].
    assert (0 <= - L * (100000000 / 250662828)) by (apply Rmult_le_pos; lra).
    lra.
Qed.

Lemma Phi_above_under_critical_z :
  975000001 / 1000000000 <= Phi (19599645 / 10000000).
Proof.
  rewrite <- (Q2R_ratio 19599645 10000000), <- (Q2R_ratio 975000001 1000000000).
  apply (Phi_lower_bound_fine 8); apply Qle_bool_imp_le; vm_compute; reflexivity.
Qed.

Lemma band_valid : valid band_control /\ valid band_variant.
Proof. valid_arm. Qed.

Lemma band_rates :
  rate band_variant - rate band_control = 78 / 10000
  /\ variance_term band_control band_variant = 3959431 / 250000000000.
Proof.
  unfold variance_term, pooled, rate, band_control, band_variant.
  cbn [conversion_count visitor_count]. split; lra.
Qed.

Lemma band_se_bounds :
  397966380 / 100000000000 < standard_error band_control band_variant
  < 397966381 / 100000000000.
Proof.
  unfold standard_error. rewrite (proj2 band_rates). apply sqrt_between; lra.
Qed.

Lemma band_z_bounds :
  19599645 / 10000000
  < (rate band_variant - rate band_control) / standard_error band_control band_variant
  < critical_z.
Proof.
  pose proof band_se_bounds as [H1 H2]. rewrite (proj1 band_rates). unfold critical_z.
  set (s := standard_error band_control band_variant) in *.
  assert (Hs : 0 < s) by lra.
  split.
  - apply Rmult_lt_reg_r with s; [exact Hs |].
    replace (78 / 10000 / s * s) with (78 / 10000) by (field; lra). lra.
  - apply Rmult_lt_reg_r with s; [exact Hs |].
    replace (78 / 10000 / s * s) with (78 / 10000) by (field; lra). lra.
Qed.

(** X18.  The verdict and the chart can disagree.  On control=(5000,187)
    and variant=(5000,226) the z statistic lies between 1.9599645 and
    [critical_z = 1.96], outside the rejection region that lines 89-93
    shade, and yet the p-value is below 0.05 and the verdict of line 47 is
    true: the threshold of the verdict is slightly below the drawn 1.96. *)
Theorem verdict_true_outside_drawn_region :
  exists r z,
    compute_test_result band_control band_variant = Ok r
    /\ z_stat r = Fin z
    /\ 19599645 / 10000000 < z < critical_z
    /\ np_ltb (Fin critical_z) (np_abs (z_stat r)) = false
    /\ (exists p, p_value r = Fin p /\ p < alpha)
    /\ significant r = true.
Proof.
  destruct band_valid as [Hc Hv].
  pose proof band_z_bounds as Hz. pose proof band_se_bounds as [Hs _].
  pose proof (compute_test_result_valid band_control band_variant Hc Hv) as Er.
  cbv zeta in Er. rewrite np_div_fin in Er by lra.
  set (z := (rate band_variant - rate band_control)
            / standard_error band_control band_variant) in *.
  match type of Er with _ = Ok ?x => set (r := x) in * end.
  assert (Ez : z_stat r = Fin z) by reflexivity.
  destruct (p_value_of_finite_z band_control band_variant r z Er Ez) as [Ep Hsig].
  assert (Hp : 2 * (1 - Phi (Rabs z)) < alpha).
  { rewrite Rabs_right by lra.
    assert (Hq : 19599645 / 10000000 <= z) by lra.
    pose proof (Phi_increasing _ _ Hq). pose proof Phi_above_under_critical_z.
    unfold alpha. lra. }
  exists r, z. split; [exact Er |]. split; [exact Ez |]. split; [exact Hz |].
  split; [| split].
  - rewrite Ez. cbn [np_abs]. unfold np_ltb.
    destruct (Rlt_dec critical_z (Rabs z)) as [H | _]; [| reflexivity].
    rewrite Rabs_right in H by lra. lra.
  - exists (2 * (1 - Phi (Rabs z))). split; [exact Ep | exact Hp].
  - apply Hsig, Hp.
Qed.
